(** * Message bus of nautilus_trader: wildcard matching, subscription cache,
      request/response correlation

    A shallow embedding of [nautilus_trader/common/msgbus.pyx] and the
    properties of its specification.

    Conventions of the embedding.
    - A Python [str] is a [string]; the matcher indexes it character by
      character, so it works on the list of its characters.
    - A Python argument that may be [None] is an [option].
    - Python dictionaries whose iteration order is irrelevant are [gmap]s;
      the subscription index, whose insertion order decides ties between
      equal priorities, is an association list in insertion order.
    - Handlers are opaque callables.  They are identified by a handler id;
      what a call does (return or raise) is given by an oracle that may
      depend on everything observed so far.  Every call is recorded in the
      [trace] of the bus, together with log records and external emissions.
      Handlers are assumed not to call back into the bus while they run.
    - An operation is a computation in a state-and-exception monad over the
      bus: the mutations made before an exception is raised persist. *)

From Stdlib Require Import ZArith Ascii String List Lia.
From Stdlib.Strings Require Import Byte.
From stdpp Require Import ssreflect base option list sorting gmap strings.

#[local] Set Warnings "-rewrite-rw".

Local Open Scope string_scope.
Local Open Scope list_scope.
Local Open Scope nat_scope.

(* ===================================================================== *)
(** ** The wildcard matcher *)
(* ===================================================================== *)

Module Wildcard.

(** The lookup table [t] of [is_matching]: an [(n+1) x (m+1)] array. *)
Abbreviation Table := (list (list bool)).

(** [np.empty((rows, cols)); t.fill(False)] *)
Definition table_new (rows cols : nat) : Table :=
  replicate rows (replicate cols false).

(** [t[i, j]] *)
Definition tget (t : Table) (i j : nat) : bool :=
  default false (t !! i ≫= (.!! j)).

(** [t[i, j] = v] *)
Definition tset (t : Table) (i j : nat) (v : bool) : Table :=
  alter (<[j := v]>) i t.

(** [s[k] == c] for an index [k] within the string. *)
Definition char_is (s : list ascii) (k : nat) (c : ascii) : bool :=
  bool_decide (s !! k = Some c).

(** [a[i] == b[j]] for indices within the strings. *)
Definition char_eq (a : list ascii) (i : nat) (b : list ascii) (j : nat) : bool :=
  bool_decide (a !! i = b !! j).

(** Body of the first loop: [if pattern[j-1] == '*': t[0, j] = t[0, j-1]]. *)
Definition row0_step (pattern : list ascii) (t : Table) (j : nat) : Table :=
  if char_is pattern (j - 1) "*" then tset t 0 j (tget t 0 (j - 1)) else t.

(** Body of the inner loop of the second loop nest. *)
Definition cell_step (topic pattern : list ascii) (i : nat) (t : Table) (j : nat)
  : Table :=
  if char_is pattern (j - 1) "*" then
    tset t i j (tget t (i - 1) j || tget t i (j - 1))
  else if char_is pattern (j - 1) "?" || char_eq topic (i - 1) pattern (j - 1) then
    tset t i j (tget t (i - 1) (j - 1))
  else t.

(** [for j in range(1, m + 1): ...] of the second loop nest, for one [i]. *)
Definition row_step (topic pattern : list ascii) (t : Table) (i : nat) : Table :=
  foldl (cell_step topic pattern i) t (seq 1 (length pattern)).

(** [is_matching] on the characters of its arguments. *)
Definition is_matching_chars (topic pattern : list ascii) : bool :=
  let n := length topic in
  let m := length pattern in
  let t := table_new (n + 1) (m + 1) in
  let t := tset t 0 0 true in
  let t := foldl (row0_step pattern) t (seq 1 m) in
  let t := foldl (row_step topic pattern) t (seq 1 n) in
  tget t n m.

(** [is_matching(topic, pattern)].  The C [int] lengths of the source are
    natural numbers here: a string whose length does not fit a C [int]
    has no lookup table in memory either. *)
Definition is_matching (topic pattern : string) : bool :=
  is_matching_chars (list_ascii_of_string topic) (list_ascii_of_string pattern).

(** *** Glob semantics, stated independently of the table

    A pattern is a sequence of items; [*] stands for any string, [?] for any
    one character, any other character for itself.  A topic matches when it
    can be cut into one piece per item, each piece allowed by its item. *)

Definition piece_ok (c : ascii) (w : list ascii) : Prop :=
  if decide (c = "*"%char) then True
  else if decide (c = "?"%char) then length w = 1
  else w = [c].

Definition glob_match (topic pattern : list ascii) : Prop :=
  ∃ pieces, Forall2 piece_ok pattern pieces ∧ concat pieces = topic.

(** *** Invariants of the table while the loops run *)

Definition table_dims (rows cols : nat) (t : Table) : Prop :=
  length t = rows ∧ Forall (λ r, length r = cols) t.

(** The cell [(i', j')] has been visited once the loops have reached the
    cell [(i, j)], going through the rows in order. *)
Definition visited (i j i' j' : nat) : Prop := i' < i ∨ (i' = i ∧ j' ≤ j).

(** Visited cells hold the glob relation on the prefixes; the others still
    hold the [False] the table was filled with. *)
Definition table_upto (topic pattern : list ascii) (i j : nat) (t : Table) : Prop :=
  table_dims (length topic + 1) (length pattern + 1) t ∧
  ∀ i' j', i' ≤ length topic → j' ≤ length pattern →
    (visited i j i' j' →
     tget t i' j' = true ↔ glob_match (take i' topic) (take j' pattern)) ∧
    (¬ visited i j i' j' → tget t i' j' = false).

End Wildcard.

(* ===================================================================== *)
(** ** Python values handled by the bus *)
(* ===================================================================== *)

(** A callable, known by its identity: two handlers are equal ([==]) exactly
    when they are the same callable. *)
Inductive Handler := Fn (ident : nat).

#[global] Instance Handler_eq_dec : EqDecision Handler.
Proof. solve_decision. Defined.

(** A [UUID4] value, as the 128-bit number it stands for. *)
Abbreviation UUID4 := N (only parsing).

(** A class, by name: two classes are the same class exactly when they
    have the same name. *)
Abbreviation PyType := string (only parsing).

(** The fields of [Request] that the bus reads. *)
Module Request.
Record t := mk { id : UUID4; callback : Handler }.
End Request.

(** The fields of [Response] that the bus reads. *)
Module Response.
Record t := mk { correlation_id : UUID4 }.
End Response.

(** A message: a request, a response, or any other object, of which only the
    class, the base classes of the class (the classes it inherits from,
    directly or not, other than [object]) and an opaque content are known.
    A request or response object is taken to be of the class [Request] or
    [Response] itself. *)
Inductive Msg :=
| Object (cls : PyType) (bases : list PyType) (content : N)
| RequestObj (request : Request.t)
| ResponseObj (response : Response.t).

(** [type(msg)] *)
Definition type_of (msg : Msg) : PyType :=
  match msg with
  | Object cls _ _ => cls
  | RequestObj _ => "Request"
  | ResponseObj _ => "Response"
  end.

(** [type(msg).__mro__]: the class of the message, then its base classes;
    every class inherits from [object]. *)
Definition mro (msg : Msg) : list PyType :=
  match msg with
  | Object cls bases _ => cls :: bases ++ ["object"]
  | RequestObj _ => ["Request"; "object"]
  | ResponseObj _ => ["Response"; "object"]
  end.

(** [isinstance(msg, types)] for a tuple of classes: the class of the
    message or one of its base classes is in the tuple. *)
Definition isinstance (msg : Msg) (types : list PyType) : bool :=
  bool_decide (Exists (λ cls, cls ∈ types) (mro msg)).

(** A serializer, by its [serialize] method. *)
Abbreviation Serializer := (Msg → list Byte.byte).

(** *** Exceptions and results *)

(** The kinds of error of the specification; [KeyError] and [ValueError] are
    those of the dictionary and list operations of Python; [HandlerRaised h]
    is whatever the handler [h] raised, which the bus does not catch. *)
Inductive Exception :=
| InvalidArgument
| AlreadyRegistered
| NotRegistered
| HandlerMismatch
| KeyError
| ValueError
| HandlerRaised (h : Handler).

Inductive Result (A : Type) :=
| Ok (a : A)
| Raise (e : Exception).
Arguments Ok {A} a.
Arguments Raise {A} e.

#[global] Instance Result_ret : MRet Result := λ A a, Ok a.
#[global] Instance Result_bind : MBind Result := λ A B f r,
  match r with
  | Ok a => f a
  | Raise e => Raise e
  end.

(** *** Argument checks

    The checks of [nautilus_trader.core.correctness.Condition] are not part
    of the sources at hand.  An invalid argument (null, empty string,
    negative priority) is an [InvalidArgument]; the conditions on the
    registry raise the kinds named in the error taxonomy. *)
Module Condition.

(** Modelled from the spec: [Condition.not_none], which raises on a null
    argument. *)
Definition not_none {A} (argument : option A) : Result A :=
  match argument with
  | Some a => Ok a
  | None => Raise InvalidArgument
  end.

(** Modelled from the spec: [Condition.valid_string], which raises on a null
    or empty string. *)
Definition valid_string (argument : option string) : Result string :=
  match argument with
  | Some s => if bool_decide (s = "") then Raise InvalidArgument else Ok s
  | None => Raise InvalidArgument
  end.

(** Modelled from the spec: [Condition.callable], which raises on a null
    handler. *)
Definition callable (argument : option Handler) : Result Handler :=
  match argument with
  | Some h => Ok h
  | None => Raise InvalidArgument
  end.

(** Modelled from the spec: [Condition.not_negative_int], which raises on a
    negative integer. *)
Definition not_negative_int (value : Z) : Result unit :=
  if bool_decide (value < 0)%Z then Raise InvalidArgument else Ok tt.

(** Modelled from the spec: [Condition.not_in], by which [register] fails
    on an endpoint that exists. *)
Definition not_in {V} (key : string) (d : gmap string V) : Result unit :=
  if bool_decide (is_Some (d !! key)) then Raise AlreadyRegistered else Ok tt.

(** Modelled from the spec: [Condition.is_in], by which [deregister] fails
    on an endpoint that is absent. *)
Definition is_in {V} (key : string) (d : gmap string V) : Result unit :=
  if bool_decide (is_Some (d !! key)) then Ok tt else Raise NotRegistered.

(** Modelled from the spec: [Condition.equal], by which [deregister] fails
    on a handler that is not the stored one. *)
Definition equal (a b : Handler) : Result unit :=
  if bool_decide (a = b) then Ok tt else Raise HandlerMismatch.

End Condition.

(* ===================================================================== *)
(** ** Subscriptions *)
(* ===================================================================== *)

Module Subscription.

(** The priority is an integer that is only ever compared. *)
Record t := mk { topic : string; handler : Handler; priority : Z }.

(** [Subscription.__init__] *)
Definition init (topic : option string) (handler : option Handler) (priority : Z)
  : Result t :=
  topic ← Condition.valid_string topic;
  handler ← Condition.callable handler;
  Condition.not_negative_int priority;;
  mret (mk topic handler priority).

(** [__eq__]: the priority is not considered. *)
Definition eq (self other : t) : bool :=
  bool_decide (topic self = topic other) && bool_decide (handler self = handler other).

(** [__lt__] *)
Definition lt (self other : t) : bool :=
  bool_decide (priority self < priority other)%Z.

(** [__le__] *)
Definition le (self other : t) : bool :=
  bool_decide (priority self ≤ priority other)%Z.

(** [__gt__] *)
Definition gt (self other : t) : bool :=
  bool_decide (priority self > priority other)%Z.

(** [__ge__] *)
Definition ge (self other : t) : bool :=
  bool_decide (priority self >= priority other)%Z.

(** What [__eq__] and [__hash__] look at. *)
Definition key (self : t) : string * Handler := (topic self, handler self).

End Subscription.

#[global] Instance Subscription_eq_dec : EqDecision Subscription.t.
Proof. solve_decision. Defined.

(** *** [sorted(subs, reverse=True)]

    The sort of Python is stable and compares with [__lt__] only; with
    [reverse=True] the result is descending and elements that compare equal
    keep their original order.  There is one such list, built here by
    insertion: an element goes before the first one that is not greater. *)
Fixpoint insert_desc (x : Subscription.t) (l : list Subscription.t)
  : list Subscription.t :=
  match l with
  | [] => [x]
  | y :: l' => if Subscription.lt x y then y :: insert_desc x l' else x :: l
  end.

Definition sorted_reverse (l : list Subscription.t) : list Subscription.t :=
  foldr insert_desc [] l.

(** [sorted(matches)] on a list of strings. *)
Definition sorted_str (l : list string) : list string := merge_sort String.le l.

(** [subs.remove(sub)]: removes the first element equal to [sub]; a
    [ValueError] if there is none. *)
Fixpoint list_remove (sub : Subscription.t) (subs : list Subscription.t)
  : Result (list Subscription.t) :=
  match subs with
  | [] => Raise ValueError
  | x :: subs' =>
      if Subscription.eq x sub then Ok subs'
      else subs'' ← list_remove sub subs'; mret (x :: subs'')
  end.

(** *** The dictionary keyed by subscriptions

    [dict[Subscription, list[str]]] in insertion order; keys are compared
    with [__eq__]. *)
Abbreviation SubscriptionDict := (list (Subscription.t * list string)).

(** [d.get(sub)] *)
Fixpoint dict_get (sub : Subscription.t) (d : SubscriptionDict) : option (list string) :=
  match d with
  | [] => None
  | (k, v) :: d' => if Subscription.eq k sub then Some v else dict_get sub d'
  end.

(** [sub in d] *)
Definition dict_contains (sub : Subscription.t) (d : SubscriptionDict) : bool :=
  bool_decide (is_Some (dict_get sub d)).

(** [d[sub] = v]: an existing key keeps its place (and the key object stays
    the one stored first), a new key goes last. *)
Fixpoint dict_set (sub : Subscription.t) (v : list string) (d : SubscriptionDict)
  : SubscriptionDict :=
  match d with
  | [] => [(sub, v)]
  | (k, v') :: d' =>
      if Subscription.eq k sub then (k, v) :: d' else (k, v') :: dict_set sub v d'
  end.

(** A list of topics once [topic] is recorded in it:
    [if topic not in matches: matches.append(topic)], then [sorted(matches)]. *)
Definition with_topic (topic : string) (matches : list string) : list string :=
  let matches := if bool_decide (topic ∈ matches) then matches
                 else matches ++ [topic] in
  sorted_str matches.

(** The body of the second loop of [_resolve_subscriptions], on the
    dictionary:
    [matches = d.get(sub, [])];
    [if topic not in matches: matches.append(topic)];
    [d[sub] = sorted(matches)]. *)
Definition annotate (topic : string) (d : SubscriptionDict) (sub : Subscription.t)
  : SubscriptionDict :=
  let matches := default [] (dict_get sub d) in
  dict_set sub (with_topic topic matches) d.

(** [del d[sub]] for a key that is present. *)
Definition dict_del (sub : Subscription.t) (d : SubscriptionDict) : SubscriptionDict :=
  filter (λ e, negb (Subscription.eq e.1 sub)) d.

(* ===================================================================== *)
(** ** The message bus *)
(* ===================================================================== *)

(** *** What the bus does to its surroundings *)

Inductive LogLevel := DEBUG | WARNING | ERROR.

(** The messages the bus logs, one constructor per message of the source. *)
Inductive LogMessage :=
| AddedEndpoint (endpoint : string) (handler : Handler)
| RemovedEndpoint (endpoint : string) (handler : Handler)
| CannotSend (endpoint : string)
| DuplicateRequestId (request_id : UUID4)
| CannotHandleRequest (endpoint : string)
| CallbackNotFound (correlation_id : UUID4)
| AlreadyExists (sub : Subscription.t)
| AddedSubscription (sub : Subscription.t)
| SubscriptionNotFound (sub : Subscription.t)
| RemovedSubscription (sub : Subscription.t).

(** An observable effect: a handler is called with a message, a pair of
    topic and payload is handed to the external sink
    ([msgbus_publish_external]), or a message is logged. *)
Inductive Event :=
| Called (handler : Handler) (msg : Msg)
| PublishedExternal (topic : string) (payload : list byte)
| Logged (level : LogLevel) (message : LogMessage).

(** The calls of handlers in a trace, in order. *)
Definition calls (t : list Event) : list (Handler * Msg) :=
  omap (λ e, match e with Called handler msg => Some (handler, msg) | _ => None end) t.

(** The pairs handed to the external sink in a trace, in order. *)
Definition emissions (t : list Event) : list (string * list byte) :=
  omap (λ e, match e with
             | PublishedExternal topic payload => Some (topic, payload)
             | _ => None
             end) t.

(** What a call of a handler does, as far as the bus can tell. *)
Inductive Outcome := Returns | Raises.

(** Modelled from the spec: the configuration class [MessageBusConfig],
    which is not part of the sources at hand; of its options the bus reads
    [database] and [types_filter], both absent by default. *)
Module MessageBusConfig.
Record t := mk { database : option string; types_filter : option (list PyType) }.
Definition default : t := mk None None.
End MessageBusConfig.

(** The attributes of a [MessageBus], and the [trace] of its effects so far
    (oldest first).  The four counters are integers as the specification
    has them; their declaration is not part of the sources at hand. *)
Record MessageBus := mkMessageBus {
  _endpoints : gmap string Handler;
  _patterns : gmap string (list Subscription.t);
  _subscriptions : SubscriptionDict;
  _correlation_index : gmap UUID4 Handler;
  _has_backing : bool;
  _serializer : option Serializer;
  _publishable_types : list PyType;
  sent_count : Z;
  req_count : Z;
  res_count : Z;
  pub_count : Z;
  trace : list Event
}.

Definition set_endpoints (v : gmap string Handler) (s : MessageBus) : MessageBus :=
  mkMessageBus v (_patterns s) (_subscriptions s) (_correlation_index s)
    (_has_backing s) (_serializer s) (_publishable_types s)
    (sent_count s) (req_count s) (res_count s) (pub_count s) (trace s).

Definition set_patterns (v : gmap string (list Subscription.t)) (s : MessageBus)
  : MessageBus :=
  mkMessageBus (_endpoints s) v (_subscriptions s) (_correlation_index s)
    (_has_backing s) (_serializer s) (_publishable_types s)
    (sent_count s) (req_count s) (res_count s) (pub_count s) (trace s).

Definition set_subscriptions (v : SubscriptionDict) (s : MessageBus) : MessageBus :=
  mkMessageBus (_endpoints s) (_patterns s) v (_correlation_index s)
    (_has_backing s) (_serializer s) (_publishable_types s)
    (sent_count s) (req_count s) (res_count s) (pub_count s) (trace s).

Definition set_correlation_index (v : gmap UUID4 Handler) (s : MessageBus)
  : MessageBus :=
  mkMessageBus (_endpoints s) (_patterns s) (_subscriptions s) v
    (_has_backing s) (_serializer s) (_publishable_types s)
    (sent_count s) (req_count s) (res_count s) (pub_count s) (trace s).

Definition set_sent_count (v : Z) (s : MessageBus) : MessageBus :=
  mkMessageBus (_endpoints s) (_patterns s) (_subscriptions s) (_correlation_index s)
    (_has_backing s) (_serializer s) (_publishable_types s)
    v (req_count s) (res_count s) (pub_count s) (trace s).

Definition set_req_count (v : Z) (s : MessageBus) : MessageBus :=
  mkMessageBus (_endpoints s) (_patterns s) (_subscriptions s) (_correlation_index s)
    (_has_backing s) (_serializer s) (_publishable_types s)
    (sent_count s) v (res_count s) (pub_count s) (trace s).

Definition set_res_count (v : Z) (s : MessageBus) : MessageBus :=
  mkMessageBus (_endpoints s) (_patterns s) (_subscriptions s) (_correlation_index s)
    (_has_backing s) (_serializer s) (_publishable_types s)
    (sent_count s) (req_count s) v (pub_count s) (trace s).

Definition set_pub_count (v : Z) (s : MessageBus) : MessageBus :=
  mkMessageBus (_endpoints s) (_patterns s) (_subscriptions s) (_correlation_index s)
    (_has_backing s) (_serializer s) (_publishable_types s)
    (sent_count s) (req_count s) (res_count s) v (trace s).

Definition set_trace (v : list Event) (s : MessageBus) : MessageBus :=
  mkMessageBus (_endpoints s) (_patterns s) (_subscriptions s) (_correlation_index s)
    (_has_backing s) (_serializer s) (_publishable_types s)
    (sent_count s) (req_count s) (res_count s) (pub_count s) v.

(** *** Methods as computations on the bus

    A method takes the bus to a result, a value or an exception, and to the
    bus as the method left it. *)
Definition M (A : Type) : Type := MessageBus → Result A * MessageBus.

#[global] Instance M_ret : MRet M := λ A a s, (Ok a, s).
#[global] Instance M_bind : MBind M := λ A B f m s,
  match m s with
  | (Ok a, s') => f a s'
  | (Raise e, s') => (Raise e, s')
  end.

(** A check that raises or goes on, the bus untouched. *)
Definition lift {A} (r : Result A) : M A := λ s, (r, s).

(** Reading [self]. *)
Definition get : M MessageBus := λ s, (Ok s, s).

(** Assigning to attributes of [self]. *)
Definition modify (f : MessageBus → MessageBus) : M unit := λ s, (Ok tt, f s).

Definition emit (e : Event) : M unit := modify (λ s, set_trace (trace s ++ [e]) s).

(** [self._log.debug(...)], [self._log.warning(...)], [self._log.error(...)] *)
Definition log (level : LogLevel) (message : LogMessage) : M unit :=
  emit (Logged level message).

(** [for x in l: acc = body(acc, x)], left as soon as the body raises. *)
Fixpoint fold_each {A B} (l : list A) (acc : B) (body : B → A → M B) : M B :=
  match l with
  | [] => mret acc
  | x :: l' => acc' ← body acc x; fold_each l' acc' body
  end.

(** [for x in l: body(x)] *)
Definition for_each {A} (l : list A) (body : A → M unit) : M unit :=
  fold_each l tt (λ _ x, body x).

(** [self._patterns[pattern]]: a [KeyError] if the key is absent. *)
Definition patterns_getitem (pattern : string) : M (list Subscription.t) :=
  s ← get;
  match _patterns s !! pattern with
  | Some subs => mret subs
  | None => lift (Raise KeyError)
  end.

(** [self._patterns[pattern] = subs] *)
Definition patterns_setitem (pattern : string) (subs : list Subscription.t) : M unit :=
  modify (λ s, set_patterns (<[pattern := subs]> (_patterns s)) s).

(** [self._subscriptions[sub] = topics] *)
Definition subscriptions_setitem (sub : Subscription.t) (topics : list string) : M unit :=
  modify (λ s, set_subscriptions (dict_set sub topics (_subscriptions s)) s).

Section MessageBus.

(** What calling a handler with a message does, given the effects observed
    before the call. *)
Context (behaviour : list Event → Handler → Msg → Outcome).

(** The constant [EXTERNAL_PUBLISHING_TYPES] of
    [nautilus_trader.serialization.base]. *)
Context (EXTERNAL_PUBLISHING_TYPES : list PyType).

Import Wildcard.

(** [handler(msg)]: the call is observed, then returns or raises. *)
Definition invoke (handler : Handler) (msg : Msg) : M unit :=
  s ← get;
  emit (Called handler msg);;
  match behaviour (trace s) handler msg with
  | Returns => mret tt
  | Raises => lift (Raise (HandlerRaised handler))
  end.

(** [MessageBus.__init__].  Of its arguments only the name, the serializer
    and the configuration bear on the attributes modelled here. *)
Definition MessageBus_init (name : option string) (serializer : option Serializer)
    (config : option MessageBusConfig.t) : Result MessageBus :=
  let name := default "MessageBus" name in
  Condition.valid_string (Some name);;
  let config := default MessageBusConfig.default config in
  let types_filter := MessageBusConfig.types_filter config in
  mret {|
    _endpoints := ∅;
    _patterns := ∅;
    _subscriptions := [];
    _correlation_index := ∅;
    _has_backing := bool_decide (is_Some (MessageBusConfig.database config));
    _serializer := serializer;
    _publishable_types :=
      match types_filter with
      | Some types_filter =>
          filter (λ o, o ∉ types_filter) EXTERNAL_PUBLISHING_TYPES
      | None => EXTERNAL_PUBLISHING_TYPES
      end;
    sent_count := 0;
    req_count := 0;
    res_count := 0;
    pub_count := 0;
    trace := []
  |}.

(** [endpoints()], in no particular order. *)
Definition endpoints : M (list string) :=
  s ← get; mret (map_to_list (_endpoints s)).*1.

(** [topics()] *)
Definition topics : M (list string) :=
  s ← get;
  mret (sorted_str (remove_dups (Subscription.topic <$> (_subscriptions s).*1))).

(** [subscriptions(pattern)] *)
Definition subscriptions (pattern : option string) : M (list Subscription.t) :=
  let pattern := Some (default "*" pattern) in
  pattern ← lift (Condition.valid_string pattern);
  s ← get;
  mret (filter (λ sub, is_matching (Subscription.topic sub) pattern)
          (_subscriptions s).*1).

(** [has_subscribers(pattern)] *)
Definition has_subscribers (pattern : option string) : M bool :=
  subs ← subscriptions pattern;
  mret (bool_decide (0 < length subs)).

(** [is_subscribed(topic, handler)] *)
Definition is_subscribed (topic : option string) (handler : option Handler) : M bool :=
  topic ← lift (Condition.valid_string topic);
  handler ← lift (Condition.callable handler);
  sub ← lift (Subscription.init (Some topic) (Some handler) 0);
  s ← get;
  mret (dict_contains sub (_subscriptions s)).

(** [is_pending_request(request_id)] *)
Definition is_pending_request (request_id : option UUID4) : M bool :=
  request_id ← lift (Condition.not_none request_id);
  s ← get;
  mret (bool_decide (is_Some (_correlation_index s !! request_id))).

(** [register(endpoint, handler)] *)
Definition register (endpoint : option string) (handler : option Handler) : M unit :=
  endpoint ← lift (Condition.valid_string endpoint);
  handler ← lift (Condition.callable handler);
  s ← get;
  lift (Condition.not_in endpoint (_endpoints s));;
  modify (λ s, set_endpoints (<[endpoint := handler]> (_endpoints s)) s);;
  log DEBUG (AddedEndpoint endpoint handler).

(** [deregister(endpoint, handler)] *)
Definition deregister (endpoint : option string) (handler : option Handler) : M unit :=
  endpoint ← lift (Condition.valid_string endpoint);
  handler ← lift (Condition.callable handler);
  s ← get;
  lift (Condition.is_in endpoint (_endpoints s));;
  registered ← lift (match _endpoints s !! endpoint with
                     | Some h => Ok h
                     | None => Raise KeyError
                     end);
  lift (Condition.equal handler registered);;
  modify (λ s, set_endpoints (delete endpoint (_endpoints s)) s);;
  log DEBUG (RemovedEndpoint endpoint handler).

(** [send(endpoint, msg)] *)
Definition send (endpoint : option string) (msg : option Msg) : M unit :=
  endpoint ← lift (Condition.not_none endpoint);
  msg ← lift (Condition.not_none msg);
  s ← get;
  match _endpoints s !! endpoint with
  | None => log ERROR (CannotSend endpoint)
  | Some handler =>
      invoke handler msg;;
      modify (λ s, set_sent_count (sent_count s + 1)%Z s)
  end.

(** [request(endpoint, request)] *)
Definition request (endpoint : option string) (request : option Request.t) : M unit :=
  endpoint ← lift (Condition.not_none endpoint);
  request ← lift (Condition.not_none request);
  s ← get;
  if bool_decide (is_Some (_correlation_index s !! Request.id request)) then
    log ERROR (DuplicateRequestId (Request.id request))
  else
    modify (λ s, set_correlation_index
                   (<[Request.id request := Request.callback request]>
                      (_correlation_index s)) s);;
    s ← get;
    match _endpoints s !! endpoint with
    | None => log ERROR (CannotHandleRequest endpoint)
    | Some handler =>
        invoke handler (RequestObj request);;
        modify (λ s, set_req_count (req_count s + 1)%Z s)
    end.

(** [response(response)] *)
Definition response (response : option Response.t) : M unit :=
  response ← lift (Condition.not_none response);
  s ← get;
  let callback := _correlation_index s !! Response.correlation_id response in
  modify (λ s, set_correlation_index
                 (delete (Response.correlation_id response) (_correlation_index s)) s);;
  match callback with
  | None => log ERROR (CallbackNotFound (Response.correlation_id response))
  | Some callback =>
      invoke callback (ResponseObj response);;
      modify (λ s, set_res_count (res_count s + 1)%Z s)
  end.

(** The body of the loop of [subscribe], [for pattern in patterns]:
    [if is_matching(topic, pattern):]
    [subs = list(self._patterns[pattern])], [subs.append(sub)],
    [subs = sorted(subs, reverse=True)], [self._patterns[pattern] = subs],
    [matches.append(pattern)]. *)
Definition subscribe_body (topic : string) (sub : Subscription.t)
    (matches : list string) (pattern : string) : M (list string) :=
  if is_matching topic pattern then
    subs ← patterns_getitem pattern;
    let subs := subs ++ [sub] in
    let subs := sorted_reverse subs in
    patterns_setitem pattern subs;;
    mret (matches ++ [pattern])
  else mret matches.

(** The body of the loop of [unsubscribe], [for pattern in patterns]:
    [subs = list(self._patterns[pattern])], [subs.remove(sub)],
    [subs = sorted(subs, reverse=True)], [self._patterns[pattern] = subs]. *)
Definition unsubscribe_body (sub : Subscription.t) (pattern : string) : M unit :=
  subs ← patterns_getitem pattern;
  subs ← lift (list_remove sub subs);
  let subs := sorted_reverse subs in
  patterns_setitem pattern subs.

(** [subscribe(topic, handler, priority)] *)
Definition subscribe (topic : option string) (handler : option Handler) (priority : Z)
  : M unit :=
  topic ← lift (Condition.valid_string topic);
  handler ← lift (Condition.callable handler);
  sub ← lift (Subscription.init (Some topic) (Some handler) priority);
  s ← get;
  if dict_contains sub (_subscriptions s) then
    log DEBUG (AlreadyExists sub)
  else
    let patterns := (map_to_list (_patterns s)).*1 in
    matches ← fold_each patterns [] (subscribe_body topic sub);
    subscriptions_setitem sub (sorted_str matches);;
    log DEBUG (AddedSubscription sub).

(** [unsubscribe(topic, handler)] *)
Definition unsubscribe (topic : option string) (handler : option Handler) : M unit :=
  topic ← lift (Condition.valid_string topic);
  handler ← lift (Condition.callable handler);
  sub ← lift (Subscription.init (Some topic) (Some handler) 0);
  s ← get;
  match dict_get sub (_subscriptions s) with
  | None => log WARNING (SubscriptionNotFound sub)
  | Some patterns =>
      for_each patterns (unsubscribe_body sub);;
      modify (λ s, set_subscriptions (dict_del sub (_subscriptions s)) s);;
      log DEBUG (RemovedSubscription sub)
  end.

(** [_resolve_subscriptions(topic)] *)
Definition _resolve_subscriptions (topic : string) : M (list Subscription.t) :=
  s ← get;
  let subs_list :=
    filter (λ existing_sub, is_matching topic (Subscription.topic existing_sub))
      (_subscriptions s).*1 in
  let subs_array := sorted_reverse subs_list in
  patterns_setitem topic subs_array;;
  for_each subs_array (λ sub,
    modify (λ s, set_subscriptions (annotate topic (_subscriptions s) sub) s));;
  mret subs_array.

(** [publish_c(topic, msg)] *)
Definition publish_c (topic : option string) (msg : option Msg) : M unit :=
  topic ← lift (Condition.not_none topic);
  msg ← lift (Condition.not_none msg);
  s ← get;
  subs ← match _patterns s !! topic with
         | Some subs => mret subs
         | None => _resolve_subscriptions topic
         end;
  for_each subs (λ sub, invoke (Subscription.handler sub) msg);;
  s ← get;
  match _has_backing s, _serializer s with
  | true, Some serializer =>
      if isinstance msg (_publishable_types s) then
        let payload_bytes := serializer msg in
        emit (PublishedExternal topic payload_bytes)
      else mret tt
  | _, _ => mret tt
  end;;
  modify (λ s, set_pub_count (pub_count s + 1)%Z s).

(** [publish(topic, msg)] *)
Definition publish (topic : option string) (msg : option Msg) : M unit :=
  publish_c topic msg.

(** *** Buses that can arise *)

(** A call of a public method. *)
Inductive Call :=
| call_endpoints
| call_topics
| call_subscriptions (pattern : option string)
| call_has_subscribers (pattern : option string)
| call_is_subscribed (topic : option string) (handler : option Handler)
| call_is_pending_request (request_id : option UUID4)
| call_register (endpoint : option string) (handler : option Handler)
| call_deregister (endpoint : option string) (handler : option Handler)
| call_send (endpoint : option string) (msg : option Msg)
| call_request (endpoint : option string) (request : option Request.t)
| call_response (response : option Response.t)
| call_subscribe (topic : option string) (handler : option Handler) (priority : Z)
| call_unsubscribe (topic : option string) (handler : option Handler)
| call_publish (topic : option string) (msg : option Msg).

(** The bus after a call, whether the call returned or raised. *)
Definition after (c : Call) (s : MessageBus) : MessageBus :=
  match c with
  | call_endpoints => (endpoints s).2
  | call_topics => (topics s).2
  | call_subscriptions pattern => (subscriptions pattern s).2
  | call_has_subscribers pattern => (has_subscribers pattern s).2
  | call_is_subscribed topic handler => (is_subscribed topic handler s).2
  | call_is_pending_request request_id => (is_pending_request request_id s).2
  | call_register endpoint handler => (register endpoint handler s).2
  | call_deregister endpoint handler => (deregister endpoint handler s).2
  | call_send endpoint msg => (send endpoint msg s).2
  | call_request endpoint req => (request endpoint req s).2
  | call_response resp => (response resp s).2
  | call_subscribe topic handler priority => (subscribe topic handler priority s).2
  | call_unsubscribe topic handler => (unsubscribe topic handler s).2
  | call_publish topic msg => (publish topic msg s).2
  end.

(** The buses reached from the bus [s0] by calls of public methods. *)
Inductive reachable_from (s0 : MessageBus) : MessageBus → Prop :=
| reachable_refl : reachable_from s0 s0
| reachable_after c s : reachable_from s0 s → reachable_from s0 (after c s).


End MessageBus.

(** *** A bus, handlers and a message to run the methods on *)

Module Example.

(** Handlers that always return. *)
Definition returning : list Event → Handler → Msg → Outcome := λ _ _ _, Returns.

(** The new bus of [MessageBus_init] with default arguments. *)
Definition bus : MessageBus :=
  mkMessageBus ∅ ∅ [] ∅ false None [] 0 0 0 0 [].

Definition h1 : Handler := Fn 1.
Definition h2 : Handler := Fn 2.
Definition h3 : Handler := Fn 3.

Definition tick : Msg := Object "Tick" [] 0.

(** Handlers of which [h2] always raises and the others always return. *)
Definition h2_raising : list Event → Handler → Msg → Outcome := λ _ h _,
  if decide (h = h2) then Raises else Returns.

(** The bus after a sequence of calls. *)
Definition run (cs : list Call) (s : MessageBus) : MessageBus :=
  foldl (λ s c, after returning c s) s cs.

(** A serializer, and the new bus of [MessageBus_init] with it, a
    database and the filter [[TypeA]], when [EXTERNAL_PUBLISHING_TYPES]
    is [[TypeA; TypeB]]. *)
Definition serializer : Serializer := λ msg,
  match msg with
  | Object _ _ _ => [x01]
  | RequestObj _ => [x02]
  | ResponseObj _ => [x03]
  end.

Definition configured : MessageBus :=
  mkMessageBus ∅ ∅ [] ∅ true (Some serializer) ["TypeB"] 0 0 0 0 [].

End Example.

(** *** Notions used to state the properties of the bus *)

(** The subscriptions a [publish] on [topic] dispatches to: the cached
    sequence, or on a first publish the sequence that is resolved. *)
Definition resolved (topic : string) (s : MessageBus) : list Subscription.t :=
  match _patterns s !! topic with
  | Some subs => subs
  | None =>
      sorted_reverse
        (filter (λ sub, Wildcard.is_matching topic (Subscription.topic sub))
           (_subscriptions s).*1)
  end.

(** The bus once the subscriptions for [topic] are at hand. *)
Definition after_resolution (topic : string) (s : MessageBus) : MessageBus :=
  match _patterns s !! topic with
  | Some _ => s
  | None => (_resolve_subscriptions topic s).2
  end.

(** The calls that dispatching a message to subscriptions consists of. *)
Definition dispatch_of (msg : Msg) (subs : list Subscription.t) : list Event :=
  (λ sub, Called (Subscription.handler sub) msg) <$> subs.

(** Highest priority first. *)
Definition descending (subs : list Subscription.t) : Prop :=
  StronglySorted (λ a b, (Subscription.priority b ≤ Subscription.priority a)%Z) subs.




(** A computation keeps the relation [R] between the bus before and the bus
    after, whether it returns or raises. *)
Definition steady (R : relation MessageBus) {A} (m : M A) : Prop :=
  ∀ s, R s (m s).2.

(** The buses agree on what was fixed when the bus was made. *)
Definition same_config (s s' : MessageBus) : Prop :=
  _has_backing s' = _has_backing s ∧
  _serializer s' = _serializer s ∧
  _publishable_types s' = _publishable_types s.

(** The buses agree on the subscription index and the resolution cache. *)
Definition same_tables (s s' : MessageBus) : Prop :=
  _patterns s' = _patterns s ∧ _subscriptions s' = _subscriptions s.

(** A string without wildcard characters. *)
Definition literal (pattern : string) : Prop :=
  Forall (λ c, c ≠ "*"%char ∧ c ≠ "?"%char) (list_ascii_of_string pattern).

(** A string without [*]. *)
Definition star_free (pattern : string) : Prop :=
  Forall (λ c, c ≠ "*"%char) (list_ascii_of_string pattern).

(** The buses agree on the attribute [f]. *)
Definition agree_on {A} (f : MessageBus → A) (s s' : MessageBus) : Prop :=
  f s' = f s.

(* ===================================================================== *)
(** ** Correctness of the wildcard matcher *)
(* ===================================================================== *)

Module WildcardFacts.
Import Wildcard.

(** *** The glob relation, one pattern item at a time from the right *)

Lemma piece_ok_star w : piece_ok "*" w.
Proof. done. Qed.

Lemma piece_ok_quest w : piece_ok "?" w ↔ length w = 1.
Proof. done. Qed.

Lemma piece_ok_literal c w :
  c ≠ "*"%char → c ≠ "?"%char → piece_ok c w ↔ w = [c].
Proof. intros H1 H2. unfold piece_ok. by rewrite !decide_False. Qed.

Lemma glob_match_nil_r topic : glob_match topic [] ↔ topic = [].
Proof.
  split.
  - intros (pieces & HF & <-). by apply Forall2_nil_inv_l in HF as ->.
  - intros ->. exists []. by split; [constructor|].
Qed.

Lemma glob_match_snoc topic pattern c :
  glob_match topic (pattern ++ [c]) ↔
  ∃ t0 w, topic = t0 ++ w ∧ glob_match t0 pattern ∧ piece_ok c w.
Proof.
  split.
  - intros (pieces & HF & <-).
    apply Forall2_app_inv_l in HF as (ps & ws & Hps & Hws & ->).
    apply Forall2_cons_inv_l in Hws as (w & ws' & Hw & Hnil & ->).
    apply Forall2_nil_inv_l in Hnil as ->.
    exists (concat ps), w. split_and!; [|by exists ps|done].
    by rewrite concat_app /= app_nil_r.
  - intros (t0 & w & -> & (ps & Hps & <-) & Hw).
    exists (ps ++ [w]). split.
    + apply Forall2_app; [done|]. by repeat constructor.
    + by rewrite concat_app /= app_nil_r.
Qed.

(** [T[0, j] = T[0, j-1]] if [pattern[j-1] == '*'], else false. *)
Lemma glob_match_nil_snoc pattern c :
  glob_match [] (pattern ++ [c]) ↔ c = "*"%char ∧ glob_match [] pattern.
Proof.
  rewrite glob_match_snoc. split.
  - intros (t0 & w & Heq & Hm & Hw).
    symmetry in Heq. apply app_eq_nil in Heq as [-> ->].
    split; [|done]. unfold piece_ok in Hw.
    destruct (decide (c = "*"%char)); [done|].
    destruct (decide (c = "?"%char)); simplify_eq/=.
  - intros [-> Hm]. by exists [], [].
Qed.

(** [T[i, j] = T[i-1, j] or T[i, j-1]] if [pattern[j-1] == '*']. *)
Lemma glob_match_snoc_star topic x pattern :
  glob_match (topic ++ [x]) (pattern ++ ["*"%char]) ↔
  glob_match topic (pattern ++ ["*"%char]) ∨ glob_match (topic ++ [x]) pattern.
Proof.
  rewrite !glob_match_snoc. split.
  - intros (t0 & w & Heq & Hm & _).
    destruct (decide (w = [])) as [->|Hne].
    + right. rewrite app_nil_r in Heq. by subst.
    + left. destruct (exists_last Hne) as (w' & y & ->).
      rewrite app_assoc in Heq. apply app_inj_tail in Heq as [-> ->].
      by exists t0, w'.
  - intros [(t0 & w & -> & Hm & _)|Hm].
    + exists t0, (w ++ [x]). by rewrite app_assoc.
    + exists (topic ++ [x]), []. by rewrite app_nil_r.
Qed.

(** [T[i, j] = T[i-1, j-1]] if [pattern[j-1] == '?'] or the characters are
    equal, else false. *)
Lemma glob_match_snoc_single topic x pattern c :
  c ≠ "*"%char →
  glob_match (topic ++ [x]) (pattern ++ [c]) ↔
  (c = "?"%char ∨ x = c) ∧ glob_match topic pattern.
Proof.
  intros Hstar. rewrite glob_match_snoc. split.
  - intros (t0 & w & Heq & Hm & Hw). unfold piece_ok in Hw.
    rewrite decide_False // in Hw.
    destruct (decide (c = "?"%char)) as [->|Hq].
    + destruct w as [|y [|??]]; simplify_eq/=.
      apply app_inj_tail in Heq as [-> ->]. auto.
    + subst w. apply app_inj_tail in Heq as [-> ->]. auto.
  - intros [Hc Hm]. exists topic, [x]. split_and!; [done..|].
    unfold piece_ok. rewrite decide_False //.
    destruct (decide (c = "?"%char)); [done|]. by destruct Hc as [?| ->].
Qed.

Lemma glob_match_snoc_nil topic x : ¬ glob_match (topic ++ [x]) [].
Proof. rewrite glob_match_nil_r. by destruct topic. Qed.

(** The empty topic is matched by the patterns made of [*] only. *)
Lemma glob_match_nil_l pattern :
  glob_match [] pattern ↔ Forall (λ c, c = "*"%char) pattern.
Proof.
  induction pattern as [|c pattern IH] using rev_ind.
  - split; [by constructor|]. intros _. by apply glob_match_nil_r.
  - rewrite glob_match_nil_snoc Forall_app Forall_singleton IH. tauto.
Qed.

(** *** The lookup table as an array *)

Lemma table_new_dims rows cols : table_dims rows cols (table_new rows cols).
Proof.
  split; [apply length_replicate|].
  apply Forall_replicate, length_replicate.
Qed.

Lemma tset_dims rows cols t i j v :
  table_dims rows cols t → table_dims rows cols (tset t i j v).
Proof.
  intros [Hlen Hrows]. split; [by rewrite length_alter|].
  apply Forall_alter; [done|]. intros r _ Hr. by rewrite length_insert.
Qed.

Lemma tget_tset rows cols t i j v i' j' :
  table_dims rows cols t → i < rows → j < cols →
  tget (tset t i j v) i' j' = if decide (i = i' ∧ j = j') then v else tget t i' j'.
Proof.
  intros [Hlen Hrows] Hi Hj. unfold tget, tset.
  destruct (decide (i = i')) as [<-|Hne]; last first.
  { rewrite list_lookup_alter_ne // decide_False //. tauto. }
  rewrite list_lookup_alter_eq.
  destruct (lookup_lt_is_Some_2 t i) as [r Hr]; [lia|]. rewrite Hr /=.
  assert (length r = cols) as Hlr by by eapply Forall_lookup_1 in Hrows.
  destruct (decide (j = j')) as [<-|Hne].
  - rewrite list_lookup_insert_eq; [|lia]. by rewrite decide_True.
  - rewrite list_lookup_insert_ne // decide_False //. tauto.
Qed.

Lemma tget_table_new rows cols i j : tget (table_new rows cols) i j = false.
Proof.
  unfold tget, table_new.
  destruct (replicate rows (replicate cols false) !! i) as [r|] eqn:Hr; simpl; [|done].
  apply lookup_replicate in Hr as [-> _].
  destruct (replicate cols false !! j) as [b|] eqn:Hb; simpl; [|done].
  by apply lookup_replicate in Hb as [-> _].
Qed.

(** *** The loops fill the table with the glob relation on prefixes *)

Section table.
Context (topic pattern : list ascii).

Local Abbreviation n := (length topic).
Local Abbreviation m := (length pattern).
Local Abbreviation table_upto := (table_upto topic pattern).

Lemma table_upto_lookup i j t i' j' :
  table_upto i j t → i' ≤ n → j' ≤ m → visited i j i' j' →
  tget t i' j' = true ↔ glob_match (take i' topic) (take j' pattern).
Proof. intros [_ H] Hi Hj Hv. by apply H. Qed.

Lemma take_snoc_pattern j :
  1 ≤ j ≤ m → ∃ c, pattern !! (j - 1) = Some c ∧
                   take j pattern = take (j - 1) pattern ++ [c].
Proof.
  intros Hj. destruct (lookup_lt_is_Some_2 pattern (j - 1)) as [c Hc]; [lia|].
  exists c. split; [done|].
  replace j with (S (j - 1)) at 1 by lia. by apply take_S_r.
Qed.

Lemma take_snoc_topic i :
  1 ≤ i ≤ n → ∃ x, topic !! (i - 1) = Some x ∧
                   take i topic = take (i - 1) topic ++ [x].
Proof.
  intros Hi. destruct (lookup_lt_is_Some_2 topic (i - 1)) as [x Hx]; [lia|].
  exists x. split; [done|].
  replace i with (S (i - 1)) at 1 by lia. by apply take_S_r.
Qed.

(** After [t[0, 0] = True]. *)
Lemma table_upto_init :
  table_upto 0 0 (tset (table_new (n + 1) (m + 1)) 0 0 true).
Proof.
  split; [apply tset_dims, table_new_dims|].
  intros i' j' Hi Hj.
  rewrite (tget_tset (n + 1) (m + 1)); [|apply table_new_dims|lia..].
  rewrite tget_table_new. unfold visited.
  destruct (decide (0 = i' ∧ 0 = j')) as [[<- <-]|Hne].
  - split; [|lia]. intros _. split; [|done]. intros _. by apply glob_match_nil_r.
  - split; [lia|done].
Qed.

(** Writing the right value into the next cell extends the visited part;
    leaving it alone does so too when the right value is [False]. *)
Lemma table_upto_write i j i0 j0 t v :
  i ≤ n → j ≤ m →
  (∀ i' j', j' ≤ m → visited i j i' j' ↔ visited i0 j0 i' j' ∨ (i' = i ∧ j' = j)) →
  ¬ visited i0 j0 i j →
  table_upto i0 j0 t →
  (v = true ↔ glob_match (take i topic) (take j pattern)) →
  table_upto i j (tset t i j v).
Proof.
  intros Hi Hj Hv Hnew [Hdims Ht] Hval. split; [by apply tset_dims|].
  intros i' j' Hi' Hj'. destruct (Ht i' j' Hi' Hj') as [Hyes Hno].
  rewrite (tget_tset (n + 1) (m + 1)) //; [|lia..]. rewrite Hv //.
  destruct (decide (i = i' ∧ j = j')) as [[<- <-]|Hne].
  - split; [done|]. intros []; auto.
  - split; [intros [?|?]; [auto|lia]|]. intros ?. apply Hno. tauto.
Qed.

Lemma table_upto_skip i j i0 j0 t :
  i ≤ n → j ≤ m →
  (∀ i' j', j' ≤ m → visited i j i' j' ↔ visited i0 j0 i' j' ∨ (i' = i ∧ j' = j)) →
  ¬ visited i0 j0 i j →
  table_upto i0 j0 t →
  ¬ glob_match (take i topic) (take j pattern) →
  table_upto i j t.
Proof.
  intros Hi Hj Hv Hnew [Hdims Ht] Hval. split; [done|].
  intros i' j' Hi' Hj'. destruct (Ht i' j' Hi' Hj') as [Hyes Hno].
  rewrite Hv //. split.
  - intros [?|[-> ->]]; [auto|]. rewrite (proj2 (Ht i j Hi Hj)) //.
  - intros ?. apply Hno. tauto.
Qed.

(** One iteration of the first loop. *)
Lemma row0_step_upto t j :
  1 ≤ j ≤ m → table_upto 0 (j - 1) t → table_upto 0 j (row0_step pattern t j).
Proof.
  intros Hj Ht. destruct (take_snoc_pattern j Hj) as (c & Hc & Htake).
  pose proof (table_upto_lookup 0 (j - 1) t 0 (j - 1) Ht) as Hprev.
  assert (∀ i' j', j' ≤ m → visited 0 j i' j' ↔ visited 0 (j - 1) i' j' ∨ (i' = 0 ∧ j' = j))
    as Hv by (unfold visited; lia).
  assert (¬ visited 0 (j - 1) 0 j) as Hnew by (unfold visited; lia).
  unfold row0_step, char_is. rewrite Hc. case_bool_decide as Hstar.
  - eapply table_upto_write; [lia..|done|done|done|].
    rewrite Htake glob_match_nil_snoc Hprev; [|lia..|unfold visited; lia].
    simplify_eq. tauto.
  - eapply table_upto_skip; [lia..|done|done|done|].
    rewrite Htake glob_match_nil_snoc. intros [-> _]. done.
Qed.

(** One iteration of the inner loop of the second loop nest. *)
Lemma cell_step_upto t i j :
  1 ≤ i ≤ n → 1 ≤ j ≤ m →
  table_upto i (j - 1) t → table_upto i j (cell_step topic pattern i t j).
Proof.
  intros Hi Hj Ht.
  destruct (take_snoc_pattern j Hj) as (c & Hc & Htakep).
  destruct (take_snoc_topic i Hi) as (x & Hx & Htaket).
  pose proof (table_upto_lookup i (j - 1) t (i - 1) j Ht) as Hup.
  pose proof (table_upto_lookup i (j - 1) t i (j - 1) Ht) as Hleft.
  pose proof (table_upto_lookup i (j - 1) t (i - 1) (j - 1) Ht) as Hdiag.
  assert (∀ i' j', j' ≤ m → visited i j i' j' ↔ visited i (j - 1) i' j' ∨ (i' = i ∧ j' = j))
    as Hv by (unfold visited; lia).
  assert (¬ visited i (j - 1) i j) as Hnew by (unfold visited; lia).
  unfold cell_step, char_is, char_eq. rewrite Hc Hx.
  case_bool_decide as Hstar.
  - simplify_eq. eapply table_upto_write; [lia..|done|done|done|].
    rewrite orb_true_iff Hup; [|lia..|unfold visited; lia].
    rewrite Hleft; [|lia..|unfold visited; lia].
    pose proof (glob_match_snoc_star (take (i - 1) topic) x
                  (take (j - 1) pattern)) as Hs.
    rewrite -Htaket -Htakep in Hs. tauto.
  - assert (c ≠ "*"%char) as Hc' by congruence.
    destruct (bool_decide (Some c = Some "?"%char) || bool_decide (Some x = Some c))
      eqn:Hsingle.
    + eapply table_upto_write; [lia..|done|done|done|].
      rewrite Hdiag; [|lia..|unfold visited; lia].
      rewrite Htaket Htakep glob_match_snoc_single //.
      apply orb_true_iff in Hsingle as [H|H]; apply bool_decide_eq_true in H;
        simplify_eq; tauto.
    + eapply table_upto_skip; [lia..|done|done|done|].
      rewrite Htaket Htakep glob_match_snoc_single //.
      apply orb_false_iff in Hsingle as [H1 H2].
      apply bool_decide_eq_false in H1, H2. intros [[->| ->] _]; done.
Qed.

(** A loop [for j in range(1, k + 1)] keeps an invariant indexed by the
    number of iterations done. *)
Lemma foldl_range_invariant {A} (P : nat → A → Prop) (f : A → nat → A) a k :
  P 0 a →
  (∀ j b, 1 ≤ j ≤ k → P (j - 1) b → P j (f b j)) →
  P k (foldl f a (seq 1 k)).
Proof.
  induction k as [|k IH]; intros H0 Hstep; [done|].
  rewrite seq_S foldl_app /=. apply Hstep; [lia|].
  replace (S k - 1) with k by lia. apply IH; [done|].
  intros j b Hj. apply Hstep. lia.
Qed.

(** After the first loop the row of the empty topic is complete. *)
Lemma row0_upto :
  table_upto 0 m
    (foldl (row0_step pattern) (tset (table_new (n + 1) (m + 1)) 0 0 true) (seq 1 m)).
Proof.
  apply (foldl_range_invariant (table_upto 0)); [apply table_upto_init|].
  intros j t Hj. by apply row0_step_upto.
Qed.

(** Starting a row: its column 0 is never written and is rightly [False]. *)
Lemma table_upto_next_row i t :
  1 ≤ i ≤ n → table_upto (i - 1) m t → table_upto i 0 t.
Proof.
  intros Hi Ht. destruct (take_snoc_topic i Hi) as (x & _ & Htake).
  eapply (table_upto_skip i 0 (i - 1) m); [lia..| | |done|].
  - unfold visited. lia.
  - unfold visited. lia.
  - rewrite Htake. apply glob_match_snoc_nil.
Qed.

Lemma row_step_upto t i :
  1 ≤ i ≤ n → table_upto (i - 1) m t → table_upto i m (row_step topic pattern t i).
Proof.
  intros Hi Ht. unfold row_step.
  apply (foldl_range_invariant (table_upto i)); [by apply table_upto_next_row|].
  intros j b Hj. by apply cell_step_upto.
Qed.

Lemma is_matching_chars_glob :
  is_matching_chars topic pattern = true ↔ glob_match topic pattern.
Proof.
  unfold is_matching_chars.
  set (t := foldl (row_step topic pattern) _ _).
  assert (table_upto n m t) as Ht.
  { apply (foldl_range_invariant (λ i, table_upto i m)); [apply row0_upto|].
    intros i b Hi. by apply row_step_upto. }
  rewrite (table_upto_lookup n m t n m Ht); [|lia..|unfold visited; lia].
  by rewrite !take_ge.
Qed.

End table.

(** C2.  [is_matching(topic, pattern)] is true exactly when the pattern
    matches the topic as a glob: [?] stands for exactly one character, [*]
    for any number of characters, none included, and any other character
    for itself.  In particular the empty topic is matched exactly by the
    patterns made of [*] only, ["a"] is not matched by the empty pattern,
    and the test vectors of the specification hold. *)
Theorem is_matching_glob :
  (∀ topic pattern,
     is_matching topic pattern = true ↔
     glob_match (list_ascii_of_string topic) (list_ascii_of_string pattern)) ∧
  (∀ pattern,
     is_matching "" pattern = true ↔
     Forall (λ c, c = "*"%char) (list_ascii_of_string pattern)) ∧
  is_matching "a" "" = false ∧
  (is_matching "" "" = true ∧ is_matching "" "*" = true ∧
   is_matching "" "**" = true ∧
   is_matching "comp" "comp*" = true ∧ is_matching "complete" "comp*" = true ∧
   is_matching "computer" "comp*" = true ∧
   is_matching "camp" "c?mp" = true ∧ is_matching "comp" "c?mp" = true ∧
   is_matching "coop" "c??p" = true ∧ is_matching "cmp" "c?mp" = false).
Proof.
  split_and!; try by vm_compute.
  - intros topic pattern. apply is_matching_chars_glob.
  - intros pattern. rewrite /is_matching is_matching_chars_glob.
    apply glob_match_nil_l.
Qed.

End WildcardFacts.

(* ===================================================================== *)
(** ** Point-to-point messages, requests and responses *)
(* ===================================================================== *)

(** Runs the plumbing of the monad, leaving the state transformations. *)
Ltac bus_simpl :=
  rewrite /mbind /M_bind /mret /M_ret /lift /get /modify /emit /log /=.

Section Endpoints.
Context (behaviour : list Event → Handler → Msg → Outcome).

(** C8.  A [send] to an endpoint without a handler returns without
    raising, calls no handler (it only logs) and leaves [sent_count] as it
    was.  A [send] to a registered endpoint calls the registered handler
    with the message, once and before returning, and when the handler
    returns, [send] returns with [sent_count] increased by exactly one. *)
Theorem send_unknown_endpoint_or_dispatch s endpoint msg :
  let s' := (send behaviour (Some endpoint) (Some msg) s).2 in
  let result := (send behaviour (Some endpoint) (Some msg) s).1 in
  (_endpoints s !! endpoint = None →
     result = Ok tt ∧
     trace s' = trace s ++ [Logged ERROR (CannotSend endpoint)] ∧
     sent_count s' = sent_count s) ∧
  (∀ handler, _endpoints s !! endpoint = Some handler →
     trace s' = trace s ++ [Called handler msg] ∧
     (behaviour (trace s) handler msg = Returns →
        result = Ok tt ∧ sent_count s' = (sent_count s + 1)%Z)).
Proof.
  rewrite /send /invoke. bus_simpl. split.
  - by intros ->.
  - intros handler ->. simpl. split; [by destruct (behaviour _ _ _)|].
    by intros ->.
Qed.

Lemma calls_app t1 t2 : calls (t1 ++ t2) = calls t1 ++ calls t2.
Proof. apply omap_app. Qed.

(** A new bus has empty tables, counters at zero and has done nothing. *)
Lemma MessageBus_init_fresh EXTERNAL_PUBLISHING_TYPES name serializer config s :
  MessageBus_init EXTERNAL_PUBLISHING_TYPES name serializer config = Ok s →
  _endpoints s = ∅ ∧ _patterns s = ∅ ∧ _subscriptions s = [] ∧
  _correlation_index s = ∅ ∧
  sent_count s = 0%Z ∧ req_count s = 0%Z ∧ res_count s = 0%Z ∧ pub_count s = 0%Z ∧
  trace s = [].
Proof.
  rewrite /MessageBus_init /mbind /Result_bind.
  destruct (Condition.valid_string _); [|done].
  intros [= <-]. done.
Qed.

(** *** The paths through [register], [request] and [response] *)

Lemma register_new s endpoint handler :
  endpoint ≠ "" → _endpoints s !! endpoint = None →
  register (Some endpoint) (Some handler) s =
    (Ok tt, set_trace (trace s ++ [Logged DEBUG (AddedEndpoint endpoint handler)])
              (set_endpoints (<[endpoint := handler]> (_endpoints s)) s)).
Proof.
  intros Hne Hnone.
  rewrite /register /Condition.valid_string /Condition.not_in. bus_simpl.
  rewrite bool_decide_eq_false_2 //= Hnone.
  by rewrite bool_decide_eq_false_2; [|apply is_Some_None].
Qed.

Lemma request_duplicate s endpoint r :
  is_Some (_correlation_index s !! Request.id r) →
  request behaviour (Some endpoint) (Some r) s =
    (Ok tt, set_trace (trace s ++ [Logged ERROR (DuplicateRequestId (Request.id r))]) s).
Proof.
  intros Hsome. rewrite /request. bus_simpl. by rewrite bool_decide_eq_true_2.
Qed.

Lemma request_no_endpoint s endpoint r :
  _correlation_index s !! Request.id r = None →
  _endpoints s !! endpoint = None →
  request behaviour (Some endpoint) (Some r) s =
    (Ok tt,
     set_trace (trace s ++ [Logged ERROR (CannotHandleRequest endpoint)])
       (set_correlation_index
          (<[Request.id r := Request.callback r]> (_correlation_index s)) s)).
Proof.
  intros Hfree Hnone. rewrite /request. bus_simpl.
  rewrite Hfree bool_decide_eq_false_2 /=; [|apply is_Some_None].
  by rewrite Hnone.
Qed.

Lemma request_dispatch s endpoint r handler :
  _correlation_index s !! Request.id r = None →
  _endpoints s !! endpoint = Some handler →
  request behaviour (Some endpoint) (Some r) s =
    let s' :=
      set_trace (trace s ++ [Called handler (RequestObj r)])
        (set_correlation_index
           (<[Request.id r := Request.callback r]> (_correlation_index s)) s) in
    match behaviour (trace s) handler (RequestObj r) with
    | Returns => (Ok tt, set_req_count (req_count s + 1)%Z s')
    | Raises => (Raise (HandlerRaised handler), s')
    end.
Proof.
  intros Hfree Hsome. rewrite /request /invoke. bus_simpl.
  rewrite Hfree bool_decide_eq_false_2 /=; [|apply is_Some_None].
  rewrite Hsome /=. by destruct (behaviour _ _ _).
Qed.

Lemma response_unknown s resp :
  _correlation_index s !! Response.correlation_id resp = None →
  response behaviour (Some resp) s =
    (Ok tt,
     set_trace
       (trace s ++ [Logged ERROR (CallbackNotFound (Response.correlation_id resp))])
       (set_correlation_index
          (delete (Response.correlation_id resp) (_correlation_index s)) s)).
Proof. intros Hnone. rewrite /response. bus_simpl. by rewrite Hnone. Qed.

Lemma response_dispatch s resp callback :
  _correlation_index s !! Response.correlation_id resp = Some callback →
  response behaviour (Some resp) s =
    let s' :=
      set_trace (trace s ++ [Called callback (ResponseObj resp)])
        (set_correlation_index
           (delete (Response.correlation_id resp) (_correlation_index s)) s) in
    match behaviour (trace s) callback (ResponseObj resp) with
    | Returns => (Ok tt, set_res_count (res_count s + 1)%Z s')
    | Raises => (Raise (HandlerRaised callback), s')
    end.
Proof.
  intros Hsome. rewrite /response /invoke. bus_simpl.
  rewrite Hsome /=. by destruct (behaviour _ _ _).
Qed.

Lemma is_pending_request_eq s request_id :
  is_pending_request (Some request_id) s =
    (Ok (bool_decide (is_Some (_correlation_index s !! request_id))), s).
Proof. done. Qed.

Lemma register_ok_inv s endpoint handler :
  (register (Some endpoint) (Some handler) s).1 = Ok tt →
  endpoint ≠ "" ∧ _endpoints s !! endpoint = None.
Proof.
  rewrite /register /Condition.valid_string /Condition.not_in. bus_simpl.
  case_bool_decide; [done|]. simpl. case_bool_decide as Hsome; [done|].
  intros _. split; [done|]. by apply eq_None_not_Some.
Qed.

(** C4.  On a new bus on which a handler has been registered at an endpoint,
    after [request(endpoint, r)] the id of [r] is pending; after a response
    whose correlation id is that id it is no longer pending, the callback
    of [r] has been called exactly once, with the response, and
    [req_count] and [res_count] are both 1.  (The endpoint handler and the
    callback are taken to return.) *)
Theorem request_response_round_trip
    EXTERNAL_PUBLISHING_TYPES name serializer config s0 svc svc_handler r resp :
  MessageBus_init EXTERNAL_PUBLISHING_TYPES name serializer config = Ok s0 →
  (register (Some svc) (Some svc_handler) s0).1 = Ok tt →
  let s1 := (register (Some svc) (Some svc_handler) s0).2 in
  let s2 := (request behaviour (Some svc) (Some r) s1).2 in
  let s3 := (response behaviour (Some resp) s2).2 in
  Response.correlation_id resp = Request.id r →
  behaviour (trace s1) svc_handler (RequestObj r) = Returns →
  behaviour (trace s2) (Request.callback r) (ResponseObj resp) = Returns →
  (request behaviour (Some svc) (Some r) s1).1 = Ok tt ∧
  (is_pending_request (Some (Request.id r)) s2).1 = Ok true ∧
  (response behaviour (Some resp) s2).1 = Ok tt ∧
  (is_pending_request (Some (Request.id r)) s3).1 = Ok false ∧
  calls (trace s3) =
    [(svc_handler, RequestObj r); (Request.callback r, ResponseObj resp)] ∧
  req_count s3 = 1%Z ∧ res_count s3 = 1%Z.
Proof.
  intros (Hep & _ & _ & Hcorr & _ & Hreq & Hres & _ & Htrace)%MessageBus_init_fresh
    [Hsvc Hfree]%register_ok_inv.
  intros s1 s2 s3 Hid Hsvc_ret Hcb_ret. subst s1 s2 s3.
  rewrite register_new // in Hsvc_ret Hcb_ret |- *.
  rewrite (request_dispatch _ svc r svc_handler) in Hcb_ret |- *;
    [|by rewrite /= ?Hcorr ?lookup_insert_eq..].
  cbn zeta in *. rewrite Hsvc_ret in Hcb_ret |- *.
  rewrite (response_dispatch _ resp (Request.callback r));
    [|by rewrite /= Hid lookup_insert_eq].
  cbn zeta. rewrite Hcb_ret !is_pending_request_eq /=.
  by rewrite lookup_insert_eq Hid lookup_delete_eq Htrace Hreq Hres /=.
Qed.

(** C6.  When a request is dispatched and a second [request] carries the
    same id while the entry of the first is live, the second call inserts
    nothing, calls no handler and changes no counter ([req_count] counts
    the first request only), and a response with that correlation id then
    calls the callback of the first request, and only it. *)
Theorem duplicate_request_dropped s endpoint1 endpoint2 r1 r2 handler1 resp :
  _correlation_index s !! Request.id r1 = None →
  _endpoints s !! endpoint1 = Some handler1 →
  behaviour (trace s) handler1 (RequestObj r1) = Returns →
  Request.id r2 = Request.id r1 →
  Response.correlation_id resp = Request.id r1 →
  let s1 := (request behaviour (Some endpoint1) (Some r1) s).2 in
  let s2 := (request behaviour (Some endpoint2) (Some r2) s1).2 in
  let s3 := (response behaviour (Some resp) s2).2 in
  (request behaviour (Some endpoint2) (Some r2) s1).1 = Ok tt ∧
  _correlation_index s2 = _correlation_index s1 ∧
  _correlation_index s2 !! Request.id r1 = Some (Request.callback r1) ∧
  calls (trace s2) = calls (trace s1) ∧
  sent_count s2 = sent_count s1 ∧ req_count s2 = req_count s1 ∧
  res_count s2 = res_count s1 ∧ pub_count s2 = pub_count s1 ∧
  req_count s2 = (req_count s + 1)%Z ∧
  calls (trace s3) = calls (trace s2) ++ [(Request.callback r1, ResponseObj resp)].
Proof.
  intros Hfree Hep Hret Hid Hcid s1 s2 s3. subst s1 s2 s3.
  rewrite (request_dispatch _ endpoint1 r1 handler1) //. cbn zeta. rewrite Hret.
  rewrite (request_duplicate _ endpoint2 r2);
    [|by rewrite /= Hid lookup_insert_eq].
  rewrite (response_dispatch _ resp (Request.callback r1));
    [|by rewrite /= Hcid lookup_insert_eq].
  cbn zeta. rewrite /= lookup_insert_eq. split_and!; try done.
  - by rewrite calls_app /= app_nil_r.
  - by destruct (behaviour (_ ++ _) _ _); rewrite /= !calls_app.
Qed.

(** C7.  A [request] whose id is not pending, to an endpoint without a
    handler, returns without raising and without counting, calling no
    handler; but the correlation entry from the id to the callback is
    already inserted, so that the id is pending afterwards. *)
Theorem request_unknown_endpoint_leaks_entry s endpoint r :
  _correlation_index s !! Request.id r = None →
  _endpoints s !! endpoint = None →
  let s' := (request behaviour (Some endpoint) (Some r) s).2 in
  (request behaviour (Some endpoint) (Some r) s).1 = Ok tt ∧
  req_count s' = req_count s ∧
  calls (trace s') = calls (trace s) ∧
  _correlation_index s' !! Request.id r = Some (Request.callback r) ∧
  (is_pending_request (Some (Request.id r)) s').1 = Ok true.
Proof.
  intros Hfree Hnone s'. subst s'.
  rewrite request_no_endpoint // is_pending_request_eq /= lookup_insert_eq.
  split_and!; try done. by rewrite calls_app /= app_nil_r.
Qed.

(** C10.  [response] removes the correlation entry before it calls the
    callback: when the callback of a pending correlation id raises, the
    exception reaches the caller, the entry is gone (the id is no longer
    pending) and [res_count] is not increased; a later response with the
    same correlation id finds no callback and calls nothing. *)
Theorem response_pops_before_callback s resp callback :
  _correlation_index s !! Response.correlation_id resp = Some callback →
  behaviour (trace s) callback (ResponseObj resp) = Raises →
  let s' := (response behaviour (Some resp) s).2 in
  (response behaviour (Some resp) s).1 = Raise (HandlerRaised callback) ∧
  trace s' = trace s ++ [Called callback (ResponseObj resp)] ∧
  _correlation_index s' = delete (Response.correlation_id resp) (_correlation_index s) ∧
  (is_pending_request (Some (Response.correlation_id resp)) s').1 = Ok false ∧
  res_count s' = res_count s ∧
  ∀ resp', Response.correlation_id resp' = Response.correlation_id resp →
    (response behaviour (Some resp') s').1 = Ok tt ∧
    calls (trace (response behaviour (Some resp') s').2) = calls (trace s').
Proof.
  intros Hsome Hraises s'. subst s'.
  rewrite (response_dispatch _ resp callback) //. cbn zeta. rewrite Hraises.
  rewrite is_pending_request_eq /= lookup_delete_eq.
  split_and!; try done.
  intros resp' Hcid. rewrite response_unknown /=; [|by rewrite Hcid lookup_delete_eq].
  split; [done|]. by rewrite !calls_app /= app_nil_r.
Qed.

End Endpoints.

(* ===================================================================== *)
(** ** What the methods leave alone *)
(* ===================================================================== *)

Section Steady.
Context (R : relation MessageBus) `{!Reflexive R, !Transitive R}.

Lemma steady_ret {A} (a : A) : steady R (mret a).
Proof. intros s. reflexivity. Qed.

Lemma steady_lift {A} (r : Result A) : steady R (lift r).
Proof. intros s. reflexivity. Qed.

Lemma steady_get : steady R get.
Proof. intros s. reflexivity. Qed.

Lemma steady_modify f : (∀ s, R s (f s)) → steady R (modify f).
Proof. intros Hf s. apply Hf. Qed.

Lemma steady_bind {A B} (m : M A) (f : A → M B) :
  steady R m → (∀ a, steady R (f a)) → steady R (m ≫= f).
Proof.
  intros Hm Hf s. rewrite /mbind /M_bind. specialize (Hm s).
  destruct (m s) as [[a|e] s']; [|done].
  etrans; [done|]. apply Hf.
Qed.

Lemma steady_fold_each {A B} (l : list A) (acc : B) (body : B → A → M B) :
  (∀ acc x, steady R (body acc x)) → steady R (fold_each l acc body).
Proof.
  intros Hbody. revert acc. induction l as [|x l IH]; intros acc; simpl.
  - apply steady_ret.
  - apply steady_bind; [apply Hbody|]. intros acc'. apply IH.
Qed.

Lemma steady_for_each {A} (l : list A) (body : A → M unit) :
  (∀ x, steady R (body x)) → steady R (for_each l body).
Proof. intros Hbody. apply steady_fold_each. intros _ x. apply Hbody. Qed.

End Steady.

#[global] Instance same_config_refl : Reflexive same_config.
Proof. by intros s. Qed.
#[global] Instance same_config_trans : Transitive same_config.
Proof. intros s1 s2 s3 (?&?&?) (?&?&?). split_and!; congruence. Qed.

#[global] Instance same_tables_refl : Reflexive same_tables.
Proof. by intros s. Qed.
#[global] Instance same_tables_trans : Transitive same_tables.
Proof. intros s1 s2 s3 [??] [??]. split; congruence. Qed.

(** Splits a computation into its steps and settles the steps that are
    plain assignments. *)
Ltac steady_steps :=
  repeat first
    [ (apply steady_bind; try apply _); [|intros ?]
    | apply steady_ret; try apply _
    | apply steady_lift; try apply _
    | apply steady_get; try apply _
    | (apply steady_for_each; try apply _); intros ?
    | (apply steady_fold_each; try apply _); intros ? ?
    | apply steady_modify; intros ?; by repeat split
    | progress (rewrite /emit /log /patterns_getitem /patterns_setitem
                  /subscriptions_setitem)
    | case_match ].

Section Frames.
Context (behaviour : list Event → Handler → Msg → Outcome).

Lemma invoke_same_config handler msg : steady same_config (invoke behaviour handler msg).
Proof. rewrite /invoke. steady_steps. Qed.


(** No method changes what was fixed when the bus was made. *)
Lemma after_same_config c s : same_config s (after behaviour c s).
Proof.
  destruct c; cbv [after];
    match goal with
    | |- same_config _ (?m _).2 => revert s; change (steady same_config m)
    end.
  all: rewrite /endpoints /topics /has_subscribers /subscriptions /is_subscribed
         /is_pending_request /register /deregister /send /request /response
         /subscribe /unsubscribe /publish /publish_c /_resolve_subscriptions
         /subscribe_body /unsubscribe_body.
  all: steady_steps; try apply invoke_same_config.
Qed.

Lemma reachable_from_same_config s0 s :
  reachable_from behaviour s0 s → same_config s0 s.
Proof.
  induction 1 as [|c s _ IH]; [done|].
  etrans; [done|]. apply after_same_config.
Qed.

End Frames.

(* ===================================================================== *)
(** ** Publishing *)
(* ===================================================================== *)

Section Publish.
Context (behaviour : list Event → Handler → Msg → Outcome).

Lemma set_trace_id s : set_trace (trace s) s = s.
Proof. by destruct s. Qed.

(** The dispatch loop calls the handlers in the order of the sequence, and
    stops at the first that raises. *)
Lemma dispatch_spec subs msg s :
  ∃ k, k ≤ length subs ∧
    (for_each subs (λ sub, invoke behaviour (Subscription.handler sub) msg) s).2
      = set_trace (trace s ++ dispatch_of msg (take k subs)) s ∧
    match (for_each subs (λ sub, invoke behaviour (Subscription.handler sub) msg) s).1 with
    | Ok _ => k = length subs
    | Raise e => ∃ h, e = HandlerRaised h
    end.
Proof.
  revert s. induction subs as [|sub subs IH]; intros s.
  - exists 0. by rewrite /= app_nil_r set_trace_id.
  - rewrite /for_each /= /invoke. bus_simpl.
    destruct (behaviour (trace s) (Subscription.handler sub) msg) eqn:Hb; simpl.
    + destruct (IH (set_trace (trace s ++ [Called (Subscription.handler sub) msg]) s))
        as (k & Hk & Hs & Hr).
      exists (S k). split; [lia|]. rewrite /for_each in Hs Hr.
      destruct (fold_each subs _ _ _) as [[[]|e] s']; simpl in *;
        subst s'; rewrite -app_assoc; split; try done; by f_equal.
    + exists 1. split; [lia|]. simpl. eauto.
Qed.

(** The dispatch loop, handler by handler: each handler is called on what
    was observed up to its call; the loop goes on while they return and is
    left at the first that raises. *)
Lemma dispatch_outcome subs msg s :
  let run := for_each subs (λ sub, invoke behaviour (Subscription.handler sub) msg) s in
  let outcome i sub :=
    behaviour (trace s ++ dispatch_of msg (take i subs)) (Subscription.handler sub) msg in
  match run.1 with
  | Ok _ =>
      run.2 = set_trace (trace s ++ dispatch_of msg subs) s ∧
      ∀ i sub, subs !! i = Some sub → outcome i sub = Returns
  | Raise e =>
      ∃ i sub, subs !! i = Some sub ∧ e = HandlerRaised (Subscription.handler sub) ∧
        outcome i sub = Raises ∧
        (∀ j sub', j < i → subs !! j = Some sub' → outcome j sub' = Returns) ∧
        run.2 = set_trace (trace s ++ dispatch_of msg (take (S i) subs)) s
  end.
Proof.
  revert s. induction subs as [|sub subs IH]; intros s; cbn zeta.
  - rewrite /for_each /= app_nil_r set_trace_id. by split.
  - rewrite /for_each /= /invoke. bus_simpl.
    destruct (behaviour (trace s) (Subscription.handler sub) msg) eqn:Hb; simpl.
    + specialize (IH (set_trace (trace s ++ [Called (Subscription.handler sub) msg]) s)).
      cbn zeta in IH. rewrite /for_each /= in IH.
      destruct (fold_each subs _ _ _) as [[[]|e] s']; simpl in *.
      * destruct IH as [-> Hall]. rewrite -app_assoc. split; [done|].
        intros [|i] sub' Hi; simplify_eq/=; [by rewrite app_nil_r|].
        rewrite -(Hall i sub' Hi) -app_assoc //.
      * destruct IH as (i & sub' & Hi & -> & Hraises & Hbefore & ->).
        exists (S i), sub'. rewrite /= -!app_assoc. split_and!; try done.
        -- by rewrite -Hraises -app_assoc.
        -- intros [|j] sub'' Hj Hsub''; simplify_eq/=; [by rewrite app_nil_r|].
           rewrite -(Hbefore j sub'') -?app_assoc //. lia.
    + exists 0, sub. rewrite /= app_nil_r. split_and!; try done. intros; lia.
Qed.

(** Resolution raises nothing and touches the two tables only. *)
Lemma _resolve_subscriptions_eq topic s :
  let subs_array := resolved topic (set_patterns (delete topic (_patterns s)) s) in
  _resolve_subscriptions topic s =
    (Ok subs_array,
     set_subscriptions (foldl (annotate topic) (_subscriptions s) subs_array)
       (set_patterns (<[topic := subs_array]> (_patterns s)) s)).
Proof.
  rewrite /resolved /= lookup_delete_eq /_resolve_subscriptions /patterns_setitem.
  bus_simpl.
  set (subs_array := sorted_reverse _).
  set (s1 := set_patterns _ s).
  assert (∀ l s1, for_each l (λ sub,
            modify (λ s, set_subscriptions (annotate topic (_subscriptions s) sub) s)) s1
          = (Ok tt, set_subscriptions (foldl (annotate topic) (_subscriptions s1) l) s1))
    as Hloop.
  { clear. induction l as [|sub l IH]; intros s1; [by destruct s1|].
    rewrite /for_each /= in IH |- *. bus_simpl. by rewrite IH. }
  by rewrite Hloop.
Qed.

Lemma resolved_uncached topic s :
  _patterns s !! topic = None →
  resolved topic (set_patterns (delete topic (_patterns s)) s) = resolved topic s.
Proof. intros Hnone. by rewrite /resolved /= lookup_delete_eq Hnone. Qed.

(** What is at hand after the lookup in the cache or the resolution. *)
Lemma after_resolution_trace topic s : trace (after_resolution topic s) = trace s.
Proof.
  rewrite /after_resolution. case_match; [done|].
  by rewrite _resolve_subscriptions_eq.
Qed.

Lemma after_resolution_same_config topic s : same_config s (after_resolution topic s).
Proof.
  rewrite /after_resolution. case_match; [done|].
  by rewrite _resolve_subscriptions_eq.
Qed.

Lemma after_resolution_pub_count topic s :
  pub_count (after_resolution topic s) = pub_count s.
Proof.
  rewrite /after_resolution. case_match; [done|].
  by rewrite _resolve_subscriptions_eq.
Qed.

(** The whole of [publish]: the handlers of the resolved subscriptions are
    called in order; if one raises, nothing else happens; if all return,
    the message may go to the external sink, and the publication is
    counted. *)
Lemma publish_spec topic msg s :
  let subs := resolved topic s in
  let s1 := after_resolution topic s in
  let external :=
    match _has_backing s, _serializer s with
    | true, Some serializer =>
        if isinstance msg (_publishable_types s)
        then [PublishedExternal topic (serializer msg)] else []
    | _, _ => []
    end in
  ∃ k, k ≤ length subs ∧
    match (publish behaviour (Some topic) (Some msg) s).1 with
    | Ok _ =>
        k = length subs ∧
        (publish behaviour (Some topic) (Some msg) s).2
          = set_pub_count (pub_count s + 1)%Z
              (set_trace (trace s ++ dispatch_of msg subs ++ external) s1)
    | Raise e =>
        (∃ h, e = HandlerRaised h) ∧
        (publish behaviour (Some topic) (Some msg) s).2
          = set_trace (trace s ++ dispatch_of msg (take k subs)) s1
    end.
Proof.
  intros subs s1 external.
  pose proof (after_resolution_trace topic s) as Htrace.
  pose proof (after_resolution_same_config topic s) as (Hb & Hser & Hty).
  pose proof (after_resolution_pub_count topic s) as Hpub.
  fold s1 in Htrace, Hb, Hser, Hty, Hpub.
  destruct (dispatch_spec subs msg s1) as (k & Hk & Hs & Hr).
  exists k. split; [done|].
  assert ((match _patterns s !! topic with
           | Some subs => mret subs
           | None => _resolve_subscriptions topic
           end) s = (Ok subs, s1)) as Hres.
  { rewrite /subs /s1 /resolved /after_resolution.
    destruct (_patterns s !! topic) eqn:Hc; [done|].
    by rewrite _resolve_subscriptions_eq /= resolved_uncached // /resolved Hc. }
  rewrite /publish /publish_c. bus_simpl. rewrite Hres /=.
  destruct (for_each subs _ s1) as [[[]|e] s2]; simpl in *; subst s2.
  - subst k. rewrite take_ge // in Htrace |- *.
    rewrite Hb Hser Hty Htrace /external.
    destruct (_has_backing s), (_serializer s) as [serializer|]; simpl;
      rewrite ?Hpub ?Htrace ?app_nil_r //.
    destruct (isinstance msg _); simpl;
      rewrite ?Hpub ?Htrace ?app_nil_r -?app_assoc //.
  - by rewrite Htrace.
Qed.

(** [publish] handler by handler: it returns when every handler returns,
    and otherwise raises what the first handler that raises has raised,
    having called no handler after it and handed nothing to the sink. *)
Lemma publish_outcome topic msg s :
  let subs := resolved topic s in
  let s1 := after_resolution topic s in
  let external :=
    match _has_backing s, _serializer s with
    | true, Some serializer =>
        if isinstance msg (_publishable_types s)
        then [PublishedExternal topic (serializer msg)] else []
    | _, _ => []
    end in
  let outcome i sub :=
    behaviour (trace s ++ dispatch_of msg (take i subs)) (Subscription.handler sub) msg in
  match (publish behaviour (Some topic) (Some msg) s).1 with
  | Ok _ =>
      (∀ i sub, subs !! i = Some sub → outcome i sub = Returns) ∧
      (publish behaviour (Some topic) (Some msg) s).2
        = set_pub_count (pub_count s + 1)%Z
            (set_trace (trace s ++ dispatch_of msg subs ++ external) s1)
  | Raise e =>
      ∃ i sub, subs !! i = Some sub ∧ e = HandlerRaised (Subscription.handler sub) ∧
        outcome i sub = Raises ∧
        (∀ j sub', j < i → subs !! j = Some sub' → outcome j sub' = Returns) ∧
        (publish behaviour (Some topic) (Some msg) s).2
          = set_trace (trace s ++ dispatch_of msg (take (S i) subs)) s1
  end.
Proof.
  intros subs s1 external outcome. subst outcome.
  pose proof (after_resolution_trace topic s) as Htrace.
  pose proof (after_resolution_same_config topic s) as (Hb & Hser & Hty).
  pose proof (after_resolution_pub_count topic s) as Hpub.
  fold s1 in Htrace, Hb, Hser, Hty, Hpub.
  pose proof (dispatch_outcome subs msg s1) as Hd. cbn zeta in Hd.
  rewrite Htrace in Hd.
  assert ((match _patterns s !! topic with
           | Some subs => mret subs
           | None => _resolve_subscriptions topic
           end) s = (Ok subs, s1)) as Hres.
  { rewrite /subs /s1 /resolved /after_resolution.
    destruct (_patterns s !! topic) eqn:Hc; [done|].
    by rewrite _resolve_subscriptions_eq /= resolved_uncached // /resolved Hc. }
  rewrite /publish /publish_c. bus_simpl. rewrite Hres /=.
  destruct (for_each subs _ s1) as [[[]|e] s2]; simpl in *.
  - destruct Hd as [-> Hall]. rewrite /= Hb Hser Hty /external.
    destruct (_has_backing s), (_serializer s) as [serializer|]; simpl;
      try destruct (isinstance msg _); simpl; (split; [done|]);
      rewrite ?Hpub ?app_nil_r -?app_assoc //.
  - destruct Hd as (i & sub & Hi & -> & Hraises & Hbefore & ->).
    exists i, sub. by split_and!.
Qed.

(** The handler that raises first is the one whose exception [publish]
    raises; when there is none, [publish] returns. *)
Lemma publish_result topic msg s :
  let subs := resolved topic s in
  let outcome i sub :=
    behaviour (trace s ++ dispatch_of msg (take i subs)) (Subscription.handler sub) msg in
  ((∀ i sub, subs !! i = Some sub → outcome i sub = Returns) →
   (publish behaviour (Some topic) (Some msg) s).1 = Ok tt) ∧
  (∀ i sub, subs !! i = Some sub → outcome i sub = Raises →
     (∀ j sub', j < i → subs !! j = Some sub' → outcome j sub' = Returns) →
     (publish behaviour (Some topic) (Some msg) s).1
       = Raise (HandlerRaised (Subscription.handler sub)) ∧
     (publish behaviour (Some topic) (Some msg) s).2
       = set_trace (trace s ++ dispatch_of msg (take (S i) subs))
           (after_resolution topic s)).
Proof.
  intros subs outcome. subst outcome.
  pose proof (publish_outcome topic msg s) as Hout. cbn zeta in Hout.
  fold subs in Hout.
  destruct (publish behaviour (Some topic) (Some msg) s) as [[[]|e] s'];
    simpl in *.
  - destruct Hout as [Hall _]. split; [done|].
    intros i sub Hi Hraises _. rewrite (Hall i sub Hi) in Hraises. done.
  - destruct Hout as (i & sub & Hi & -> & Hraises & Hbefore & ->). split.
    + intros Hall. rewrite (Hall i sub Hi) in Hraises. done.
    + intros i' sub' Hi' Hraises' Hbefore'.
      destruct (lt_eq_lt_dec i i') as [[Hlt| <-]|Hlt].
      * rewrite (Hbefore' i sub Hlt Hi) in Hraises. done.
      * by simplify_eq.
      * rewrite (Hbefore i' sub' Hlt Hi') in Hraises'. done.
Qed.

End Publish.

(* ===================================================================== *)
(** ** The sort of subscriptions *)
(* ===================================================================== *)

Section Sorting.
Implicit Types (x y : Subscription.t) (l : list Subscription.t) (p : Z).

Lemma insert_desc_Permutation x l : insert_desc x l ≡ₚ x :: l.
Proof.
  induction l as [|y l IH]; [done|]. simpl. case_match; [|done].
  by rewrite IH Permutation_swap.
Qed.

Lemma sorted_reverse_Permutation l : sorted_reverse l ≡ₚ l.
Proof.
  induction l as [|x l IH]; [done|].
  by rewrite /= insert_desc_Permutation IH.
Qed.

Lemma elem_of_sorted_reverse x l : x ∈ sorted_reverse l ↔ x ∈ l.
Proof. by rewrite sorted_reverse_Permutation. Qed.







Lemma descending_filter (P : Subscription.t → Prop) `{!∀ x, Decision (P x)} l :
  descending l → descending (filter P l).
Proof.
  rewrite /descending. induction l as [|x l IH]; intros Hl; [constructor|].
  apply StronglySorted_cons in Hl as [Hx Hl]. rewrite filter_cons.
  case_decide; [|by apply IH].
  apply StronglySorted_cons. split; [|by apply IH].
  apply Forall_forall. intros y [_ Hy]%list_elem_of_filter.
  by eapply Forall_forall in Hx.
Qed.





End Sorting.

(* ===================================================================== *)
(** ** The dictionary of subscriptions *)
(* ===================================================================== *)

Section ListFacts.

Lemma filter_all {A} (P : A → Prop) `{!∀ x, Decision (P x)} (l : list A) :
  Forall P l → filter P l = l.
Proof.
  induction 1 as [|x l Hx _ IH]; [done|].
  by rewrite filter_cons decide_True // IH.
Qed.



End ListFacts.

Section Dict.
Implicit Types (sub k : Subscription.t) (d : SubscriptionDict) (v : list string).

Lemma Subscription_eq_key (a b : Subscription.t) :
  Subscription.eq a b ↔ Subscription.key a = Subscription.key b.
Proof.
  rewrite /Subscription.eq /Subscription.key andb_True !bool_decide_spec.
  split; [by intros [-> ->]|]. by intros [= -> ->].
Qed.





Lemma dict_get_Some sub d v :
  dict_get sub d = Some v →
  ∃ k, (k, v) ∈ d ∧ Subscription.key k = Subscription.key sub.
Proof.
  induction d as [|[k v'] d IH]; [done|]. simpl.
  destruct (Subscription.eq k sub) eqn:Heq.
  - intros [= ->]. exists k. split; [left|].
    by apply Subscription_eq_key, Is_true_true.
  - intros (k' & Hin & Hkey)%IH. exists k'. split; [by right|done].
Qed.

Lemma dict_set_new sub v d :
  dict_get sub d = None → dict_set sub v d = d ++ [(sub, v)].
Proof.
  induction d as [|[k v'] d IH]; [done|]. simpl.
  destruct (Subscription.eq k sub); [done|]. intros Hnone. by rewrite IH.
Qed.




End Dict.

(* ===================================================================== *)
(** ** Coherence of the cache with the index *)
(* ===================================================================== *)

Section Coherence.
Import Wildcard.
Implicit Types (cache : gmap string (list Subscription.t)) (index : SubscriptionDict).

Lemma elem_of_sorted_str (x : string) l : x ∈ sorted_str l ↔ x ∈ l.
Proof. by rewrite /sorted_str merge_sort_Permutation. Qed.

Lemma NoDup_sorted_str l : NoDup (sorted_str l) ↔ NoDup l.
Proof. by rewrite /sorted_str merge_sort_Permutation. Qed.
















End Coherence.

(* ===================================================================== *)
(** ** Subscribing, unsubscribing and the cache *)
(* ===================================================================== *)

Section PubSub.
Context (behaviour : list Event → Handler → Msg → Outcome).
Import Wildcard.

Lemma set_patterns_id s : set_patterns (_patterns s) s = s.
Proof. by destruct s. Qed.

(** The loop of [subscribe] over the cached topics: it raises nothing,
    enters the subscription into the sequences of the topics that its
    test selects, and collects those topics. *)
Lemma subscribe_loop topic sub ks :
  ∀ matches s,
    NoDup ks → (∀ T, T ∈ ks → is_Some (_patterns s !! T)) →
    ∃ cache',
      fold_each ks matches (subscribe_body topic sub) s
      = (Ok (matches ++ filter (λ T, is_matching topic T) ks), set_patterns cache' s) ∧
      ∀ T, cache' !! T =
        if decide (T ∈ filter (λ T, is_matching topic T) ks)
        then (λ subs, sorted_reverse (subs ++ [sub])) <$> _patterns s !! T
        else _patterns s !! T.
Proof.
  induction ks as [|T0 ks IH]; intros matches s Hnd Hcached.
  - exists (_patterns s). by rewrite /= app_nil_r set_patterns_id.
  - apply NoDup_cons in Hnd as [HT0 Hnd].
    destruct (Hcached T0) as [subs0 Hsubs0]; [left|].
    rewrite /= {1}/mbind /M_bind.
    destruct (is_matching topic T0) eqn:Hm;
      [rewrite filter_cons_True; [|by rewrite /= Hm]
      |rewrite filter_cons_False; [|rewrite /= Hm; by intros ?]].
    + set (s1 := set_patterns (<[T0 := sorted_reverse (subs0 ++ [sub])]> (_patterns s)) s).
      assert (subscribe_body topic sub matches T0 s = (Ok (matches ++ [T0]), s1)) as ->.
      { rewrite /subscribe_body Hm /patterns_getitem /patterns_setitem. bus_simpl.
        by rewrite Hsubs0. }
      destruct (IH (matches ++ [T0]) s1) as (cache' & Hfold & Hcache'); [done| |].
      { intros T HT. rewrite /s1 /= lookup_insert_is_Some.
        destruct (decide (T0 = T)); [auto|]. right. split; [done|].
        apply Hcached. by right. }
      exists cache'. rewrite Hfold -app_assoc. split; [done|].
      intros T. rewrite Hcache' /s1 /=.
      destruct (decide (T = T0)) as [->|Hne].
      * rewrite decide_False; [|by intros [_ ?]%list_elem_of_filter].
        rewrite decide_True; [|left]. by rewrite lookup_insert_eq Hsubs0.
      * rewrite lookup_insert_ne //.
        apply decide_ext. rewrite elem_of_cons. tauto.
    + assert (subscribe_body topic sub matches T0 s = (Ok matches, s)) as ->.
      { by rewrite /subscribe_body Hm. }
      destruct (IH matches s) as (cache' & Hfold & Hcache'); [done| |].
      { intros T HT. apply Hcached. by right. }
      exists cache'. by rewrite Hfold.
Qed.


(** *** The tables after each method *)

Lemma Subscription_init_valid t h priority :
  t ≠ "" → ¬ (priority < 0)%Z →
  Subscription.init (Some t) (Some h) priority = Ok (Subscription.mk t h priority).
Proof.
  intros Ht Hp.
  rewrite /Subscription.init /Condition.valid_string /Condition.not_negative_int.
  by rewrite !bool_decide_eq_false_2.
Qed.

(** [subscribe] with arguments that pass the checks. *)
Lemma subscribe_valid t h priority s :
  t ≠ "" → ¬ (priority < 0)%Z →
  subscribe (Some t) (Some h) priority s =
    let sub := Subscription.mk t h priority in
    if dict_contains sub (_subscriptions s) then
      (Ok tt, set_trace (trace s ++ [Logged DEBUG (AlreadyExists sub)]) s)
    else
      (matches ← fold_each (map_to_list (_patterns s)).*1 [] (subscribe_body t sub);
       subscriptions_setitem sub (sorted_str matches);;
       log DEBUG (AddedSubscription sub)) s.
Proof.
  intros Ht Hp. rewrite /subscribe /Condition.valid_string /Condition.callable.
  rewrite bool_decide_eq_false_2 // /mbind /M_bind /lift /get.
  rewrite Subscription_init_valid //. by case_match.
Qed.









End PubSub.

(* ===================================================================== *)
(** ** The order of dispatch *)
(* ===================================================================== *)

Section Dispatch.
Context (behaviour : list Event → Handler → Msg → Outcome).

Lemma calls_dispatch_of msg subs :
  calls (dispatch_of msg subs) = (λ sub, (Subscription.handler sub, msg)) <$> subs.
Proof. induction subs as [|sub subs IH]; [done|]. by rewrite fmap_cons -IH. Qed.

(** What [publish] adds to the trace, as far as calls of handlers go. *)
Lemma publish_calls topic msg s :
  ∃ k, k ≤ length (resolved topic s) ∧
    calls (trace (publish behaviour (Some topic) (Some msg) s).2)
      = calls (trace s) ++
        ((λ sub, (Subscription.handler sub, msg)) <$> take k (resolved topic s)) ∧
    ((publish behaviour (Some topic) (Some msg) s).1 = Ok tt →
     k = length (resolved topic s)).
Proof.
  destruct (publish_spec behaviour topic msg s) as (k & Hk & Hspec).
  exists k. split; [done|].
  destruct (publish behaviour (Some topic) (Some msg) s) as [[[]|e] s'];
    simpl in *.
  - destruct Hspec as [-> ->]. split; [|done].
    rewrite /= !calls_app calls_dispatch_of take_ge //.
    destruct (_has_backing s), (_serializer s); simpl; rewrite ?app_nil_r //.
    case_match; by rewrite /= app_nil_r.
  - destruct Hspec as [_ ->]. by rewrite /= calls_app calls_dispatch_of.
Qed.




End Dispatch.

(* ===================================================================== *)
(** ** External publishing *)
(* ===================================================================== *)

Section External.
Context (behaviour : list Event → Handler → Msg → Outcome).

Lemma emissions_app t1 t2 : emissions (t1 ++ t2) = emissions t1 ++ emissions t2.
Proof. apply omap_app. Qed.

Lemma emissions_dispatch_of msg subs : emissions (dispatch_of msg subs) = [].
Proof. by induction subs. Qed.

(** A bus made with a serializer, a database and, possibly, a types
    filter. *)
Lemma MessageBus_init_configured
    EXTERNAL_PUBLISHING_TYPES name serializer database types_filter s0 :
  MessageBus_init EXTERNAL_PUBLISHING_TYPES name (Some serializer)
    (Some (MessageBusConfig.mk (Some database) types_filter)) = Ok s0 →
  _has_backing s0 = true ∧ _serializer s0 = Some serializer ∧
  _publishable_types s0 =
    filter (λ o, o ∉ default [] types_filter) EXTERNAL_PUBLISHING_TYPES.
Proof.
  rewrite /MessageBus_init /mbind /Result_bind.
  destruct (Condition.valid_string _); [|done]. intros [= <-].
  split_and!; [done..|]. destruct types_filter as [types_filter|]; [done|].
  simpl. symmetry. apply filter_all, Forall_forall. intros o _.
  apply not_elem_of_nil.
Qed.

(** C5, as the code has it.  On a bus made with a serializer, a database
    (the sink) and, possibly, a types filter, whatever was called since,
    the publishable types are the types of [EXTERNAL_PUBLISHING_TYPES] that
    are not in the filter, and [publish] tests the message against them
    with [isinstance].  When every handler returns, [publish] returns,
    having called them all, and: if neither the class of the message nor
    one of its base classes is publishable, nothing is handed to the sink;
    if the class of the message or one of its base classes is publishable,
    exactly one pair of the topic and the serialized message is handed to
    the sink, after the calls of all the handlers.  When a handler raises,
    [publish] raises what it raised, and neither are the handlers after it
    called nor is anything handed to the sink. *)
Theorem external_publish_filter
    EXTERNAL_PUBLISHING_TYPES name serializer database types_filter s0 s topic msg :
  MessageBus_init EXTERNAL_PUBLISHING_TYPES name (Some serializer)
    (Some (MessageBusConfig.mk (Some database) types_filter)) = Ok s0 →
  reachable_from behaviour s0 s →
  let filtered := default [] types_filter in
  let publishable cls := cls ∈ EXTERNAL_PUBLISHING_TYPES ∧ cls ∉ filtered in
  let subs := resolved topic s in
  let outcome i sub :=
    behaviour (trace s ++ dispatch_of msg (take i subs)) (Subscription.handler sub) msg in
  let result := (publish behaviour (Some topic) (Some msg) s).1 in
  let s' := (publish behaviour (Some topic) (Some msg) s).2 in
  (∀ cls, cls ∈ _publishable_types s ↔ publishable cls) ∧
  ((∀ i sub, subs !! i = Some sub → outcome i sub = Returns) →
     result = Ok tt ∧
     ((∀ cls, cls ∈ mro msg → ¬ publishable cls) →
        trace s' = trace s ++ dispatch_of msg subs) ∧
     (∀ cls, cls ∈ mro msg → publishable cls →
        trace s' = trace s ++ dispatch_of msg subs ++
                     [PublishedExternal topic (serializer msg)])) ∧
  (∀ i sub, subs !! i = Some sub → outcome i sub = Raises →
     (∀ j sub', j < i → subs !! j = Some sub' → outcome j sub' = Returns) →
     result = Raise (HandlerRaised (Subscription.handler sub)) ∧
     trace s' = trace s ++ dispatch_of msg (take (S i) subs)).
Proof.
  intros (Hb0 & Hser0 & Hty0)%MessageBus_init_configured
    (Hb & Hser & Hty)%reachable_from_same_config
    filtered publishable subs outcome result s'.
  rewrite Hb0 in Hb. rewrite Hser0 in Hser. rewrite Hty0 in Hty.
  assert (∀ cls, cls ∈ _publishable_types s ↔ publishable cls) as Hpub.
  { intros cls. rewrite Hty list_elem_of_filter /publishable. tauto. }
  destruct (publish_result behaviour topic msg s) as [Hreturns Hraises].
  pose proof (publish_outcome behaviour topic msg s) as Hout.
  cbn zeta in Hout. rewrite Hb Hser in Hout.
  subst outcome result s'. split_and!; [done| |].
  - intros Hall. specialize (Hreturns Hall). rewrite Hreturns in Hout |- *.
    destruct Hout as [_ ->]. split_and!; [done| |].
    + intros Hnone. rewrite /isinstance bool_decide_eq_false_2 /= ?app_nil_r //.
      intros (cls & Hin & Hcls%Hpub)%Exists_exists. by eapply Hnone.
    + intros cls Hin Hcls. rewrite /isinstance bool_decide_eq_true_2 //.
      apply Exists_exists. exists cls. split; [done|]. by apply Hpub.
  - intros i sub Hi Hr Hbefore.
    by destruct (Hraises i sub Hi Hr Hbefore) as [-> ->].
Qed.

End External.

(* ===================================================================== *)
(** ** Validation of arguments *)
(* ===================================================================== *)

Section Validation.
Context (behaviour : list Event → Handler → Msg → Outcome).






End Validation.

(* ===================================================================== *)
(** ** The cache after a subscribe *)
(* ===================================================================== *)

(** C1, which the code does not meet.  The specification asks that after
    [subscribe(p, h)] a publish on a topic [T] matched by [p] calls [h], also
    when [T] was published, and so cached, before; that is, that the cached
    sequence of [T] is the descending sort of the indexed subscriptions
    whose pattern matches [T].  [subscribe] tests each cached topic with
    [is_matching(topic, pattern)], the pattern of the subscription in the
    place of the topic and the cached topic in the place of the pattern,
    the other way round from [_resolve_subscriptions].  On a new bus, after
    a publish on ["data.trade"] and a subscribe of [h1] to ["data.*"], which
    matches ["data.trade"]: the subscription is in the index, the cached
    sequence of ["data.trade"] is still empty, not the sort of the matching
    subscriptions, and a second publish on ["data.trade"] calls no handler. *)
Theorem subscribe_misses_cached_topic :
  let published := call_publish (Some "data.trade") (Some Example.tick) in
  let subscribed := call_subscribe (Some "data.*") (Some Example.h1) 0 in
  let sub := Subscription.mk "data.*" Example.h1 0 in
  let s := Example.run [published; subscribed] Example.bus in
  Wildcard.is_matching "data.trade" "data.*" = true ∧
  Wildcard.is_matching "data.*" "data.trade" = false ∧
  (subscribe (Some "data.*") (Some Example.h1) 0 (Example.run [published] Example.bus)).1
    = Ok tt ∧
  _subscriptions s = [(sub, [])] ∧
  _patterns s !! "data.trade" = Some [] ∧
  sorted_reverse
    (filter (λ x, Wildcard.is_matching "data.trade" (Subscription.topic x))
       (_subscriptions s).*1) = [sub] ∧
  (publish Example.returning (Some "data.trade") (Some Example.tick) s).1 = Ok tt ∧
  calls (trace (publish Example.returning (Some "data.trade") (Some Example.tick) s).2)
    = [].
Proof. by vm_compute. Qed.

(** C3, which the code does not meet.  The specification asks that a
    publish calls the handlers of the subscriptions that match the topic,
    highest priority first.  On a new bus, after a publish on
    ["data.trade"], a subscribe of [h1] to ["data.*"] with priority 10 and
    a subscribe of [h2] to ["data.trade"] with priority 5: both
    subscriptions are in the index and match ["data.trade"], [h1] with the
    higher priority; but the sequence cached for ["data.trade"] holds the
    subscription of [h2] only, [subscribe] having tested the cached topic
    against the pattern ["data.*"] the wrong way round, and a publish on
    ["data.trade"] returns having called [h2] and not [h1]. *)
Theorem publish_misses_matching_subscriber :
  let published := call_publish (Some "data.trade") (Some Example.tick) in
  let sub1 := Subscription.mk "data.*" Example.h1 10 in
  let sub2 := Subscription.mk "data.trade" Example.h2 5 in
  let s := Example.run
             [published;
              call_subscribe (Some "data.*") (Some Example.h1) 10;
              call_subscribe (Some "data.trade") (Some Example.h2) 5] Example.bus in
  (_subscriptions s).*1 = [sub1; sub2] ∧
  Wildcard.is_matching "data.trade" (Subscription.topic sub1) = true ∧
  Wildcard.is_matching "data.trade" (Subscription.topic sub2) = true ∧
  sorted_reverse
    (filter (λ x, Wildcard.is_matching "data.trade" (Subscription.topic x))
       (_subscriptions s).*1) = [sub1; sub2] ∧
  _patterns s !! "data.trade" = Some [sub2] ∧
  calls (trace s) = [] ∧
  (publish Example.returning (Some "data.trade") (Some Example.tick) s).1 = Ok tt ∧
  calls (trace (publish Example.returning (Some "data.trade") (Some Example.tick) s).2)
    = [(Example.h2, Example.tick)].
Proof. by vm_compute. Qed.

(* ===================================================================== *)
(** ** The properties on concrete buses *)
(* ===================================================================== *)

Lemma Example_bus_init : MessageBus_init [] None None None = Ok Example.bus.
Proof. reflexivity. Defined.

Lemma Example_configured_init :
  MessageBus_init ["TypeA"; "TypeB"] None (Some Example.serializer)
    (Some (MessageBusConfig.mk (Some "redis") (Some ["TypeA"])))
  = Ok Example.configured.
Proof. reflexivity. Defined.

(** [send("nope", tick)] on a new bus, and [send("svc", tick)] once [h1] is
    registered at ["svc"]. *)
Lemma send_unknown_endpoint_or_dispatch_witness :
  let s := Example.run [call_register (Some "svc") (Some Example.h1)] Example.bus in
  ((send Example.returning (Some "nope") (Some Example.tick) s).1 = Ok tt ∧
   sent_count (send Example.returning (Some "nope") (Some Example.tick) s).2 = 0%Z) ∧
  ((send Example.returning (Some "svc") (Some Example.tick) s).1 = Ok tt ∧
   sent_count (send Example.returning (Some "svc") (Some Example.tick) s).2 = 1%Z).
Proof.
  intros s. split.
  - destruct (proj1 (send_unknown_endpoint_or_dispatch Example.returning s
                       "nope" Example.tick)) as (Hr & _ & Hc); [by vm_compute|].
    by split.
  - destruct (proj2 (send_unknown_endpoint_or_dispatch Example.returning s
                       "svc" Example.tick) Example.h1) as [_ H]; [by vm_compute|].
    by apply H.
Defined.

(** A request with id 7 to ["svc"] on a new bus, then its response. *)
Lemma request_response_round_trip_witness :
  let r := Request.mk 7 Example.h2 in
  let resp := Response.mk 7 in
  let s1 := (register (Some "svc") (Some Example.h1) Example.bus).2 in
  let s2 := (request Example.returning (Some "svc") (Some r) s1).2 in
  let s3 := (response Example.returning (Some resp) s2).2 in
  (is_pending_request (Some 7%N) s2).1 = Ok true ∧
  (is_pending_request (Some 7%N) s3).1 = Ok false ∧
  calls (trace s3) = [(Example.h1, RequestObj r); (Example.h2, ResponseObj resp)] ∧
  req_count s3 = 1%Z ∧ res_count s3 = 1%Z.
Proof.
  intros r resp s1 s2 s3.
  destruct (request_response_round_trip Example.returning [] None None None
              Example.bus "svc" Example.h1 r resp)
    as (_ & H2 & _ & H3 & Hc & Hreq & Hres); try reflexivity.
  by split_and!.
Defined.

(** Two requests with id 7 on a bus with ["svc"] registered, then a
    response. *)
Lemma duplicate_request_dropped_witness :
  let r1 := Request.mk 7 Example.h2 in
  let r2 := Request.mk 7 Example.h3 in
  let resp := Response.mk 7 in
  let s := Example.run [call_register (Some "svc") (Some Example.h1)] Example.bus in
  let s2 := Example.run [call_request (Some "svc") (Some r1);
                         call_request (Some "svc") (Some r2)] s in
  req_count s2 = 1%Z ∧
  calls (trace (response Example.returning (Some resp) s2).2)
    = calls (trace s2) ++ [(Example.h2, ResponseObj resp)].
Proof.
  intros r1 r2 resp s s2.
  destruct (duplicate_request_dropped Example.returning s "svc" "svc" r1 r2
              Example.h1 resp)
    as (_ & _ & _ & _ & _ & _ & _ & _ & Hreq & Hcalls); try reflexivity.
  by split.
Defined.

(** A request with id 7 to ["nope"] on a new bus. *)
Lemma request_unknown_endpoint_leaks_entry_witness :
  let r := Request.mk 7 Example.h2 in
  let s' := (request Example.returning (Some "nope") (Some r) Example.bus).2 in
  (request Example.returning (Some "nope") (Some r) Example.bus).1 = Ok tt ∧
  req_count s' = 0%Z ∧
  (is_pending_request (Some 7%N) s').1 = Ok true.
Proof.
  intros r s'.
  destruct (request_unknown_endpoint_leaks_entry Example.returning Example.bus
              "nope" r) as (Hr & Hreq & _ & _ & Hpending); try reflexivity.
  by split_and!.
Defined.

(** A response to a request with id 7 whose callback [h2] raises. *)
Lemma response_pops_before_callback_witness :
  let r := Request.mk 7 Example.h2 in
  let resp := Response.mk 7 in
  let s := (request Example.h2_raising (Some "nope") (Some r) Example.bus).2 in
  let s' := (response Example.h2_raising (Some resp) s).2 in
  (response Example.h2_raising (Some resp) s).1 = Raise (HandlerRaised Example.h2) ∧
  (is_pending_request (Some 7%N) s').1 = Ok false ∧
  res_count s' = 0%Z ∧
  calls (trace (response Example.h2_raising (Some resp) s').2) = calls (trace s').
Proof.
  intros r resp s s'.
  destruct (response_pops_before_callback Example.h2_raising s resp Example.h2)
    as (Hr & _ & _ & Hpending & Hres & Hagain); try reflexivity.
  destruct (Hagain resp) as [_ Hcalls]; [reflexivity|].
  by split_and!.
Defined.


(** With the filter [[TypeA]]: a [TypeA] message reaches the subscriber and
    not the sink, a [TypeB] message reaches both, the sink last. *)
Lemma external_publish_filter_witness :
  let s := Example.run [call_subscribe (Some "data") (Some Example.h1) 0]
             Example.configured in
  let a := Object "TypeA" [] 1 in
  let b := Object "TypeB" [] 2 in
  trace (publish Example.returning (Some "data") (Some a) s).2
    = trace s ++ dispatch_of a (resolved "data" s) ∧
  trace (publish Example.returning (Some "data") (Some b) s).2
    = trace s ++ dispatch_of b (resolved "data" s)
        ++ [PublishedExternal "data" (Example.serializer b)].
Proof.
  intros s a b.
  assert (reachable_from Example.returning Example.configured s) as Hreach.
  { apply reachable_after, reachable_refl. }
  split.
  - destruct (external_publish_filter Example.returning
                ["TypeA"; "TypeB"] None Example.serializer "redis"
                (Some ["TypeA"])
                Example.configured s "data" a Example_configured_init Hreach)
      as (_ & Hreturn & _).
    destruct Hreturn as (_ & Hnone & _); [done|]. apply Hnone.
    intros cls Hin [Hext Hnot].
    apply elem_of_cons in Hin as [->|Hin]; [apply Hnot, list_elem_of_here|].
    apply list_elem_of_singleton in Hin as ->.
    apply elem_of_cons in Hext as [?|Hext]; [done|].
    by apply list_elem_of_singleton in Hext.
  - destruct (external_publish_filter Example.returning
                ["TypeA"; "TypeB"] None Example.serializer "redis"
                (Some ["TypeA"])
                Example.configured s "data" b Example_configured_init Hreach)
      as (_ & Hreturn & _).
    destruct Hreturn as (_ & _ & Hsome); [done|]. apply (Hsome "TypeB").
    + apply list_elem_of_here.
    + split; [apply list_elem_of_further, list_elem_of_here|].
      by intros ?%list_elem_of_singleton.
Defined.

(** C5 fails as stated: with [int] publishable and [bool], a subclass of
    [int], in the types filter, a message of class [bool] is handed to the
    sink, its class being in the filter and not among the publishable
    types. *)
Lemma filtered_subclass_is_published :
  let s0 := mkMessageBus ∅ ∅ [] ∅ true (Some Example.serializer) ["int"] 0 0 0 0 [] in
  let msg := Object "bool" ["int"] 1 in
  MessageBus_init ["int"] None (Some Example.serializer)
    (Some (MessageBusConfig.mk (Some "redis") (Some ["bool"]))) = Ok s0 ∧
  type_of msg ∈ ["bool"] ∧
  (type_of msg ∉ _publishable_types s0) ∧
  (publish Example.returning (Some "data") (Some msg) s0).1 = Ok tt ∧
  emissions (trace (publish Example.returning (Some "data") (Some msg) s0).2)
    = [("data", Example.serializer msg)].
Proof.
  split_and!; [by vm_compute|apply list_elem_of_here| |by vm_compute..].
  by intros ?%list_elem_of_singleton.
Qed.



(* ===================================================================== *)
(** ** More on the wildcard matcher *)
(* ===================================================================== *)

Section Matching.
Import Wildcard WildcardFacts.
Implicit Types (topic pattern : string).

Lemma list_ascii_of_string_app (s1 s2 : string) :
  list_ascii_of_string (String.app s1 s2)
  = list_ascii_of_string s1 ++ list_ascii_of_string s2.
Proof. induction s1 as [|c s1 IH]; [done|]. by rewrite /= IH. Qed.

Lemma list_ascii_of_string_inj (s1 s2 : string) :
  list_ascii_of_string s1 = list_ascii_of_string s2 → s1 = s2.
Proof.
  intros Heq. rewrite -(string_of_list_ascii_of_string s1).
  by rewrite Heq string_of_list_ascii_of_string.
Qed.

Lemma length_list_ascii_of_string (s : string) :
  length (list_ascii_of_string s) = String.length s.
Proof. induction s as [|c s IH]; [done|]. by rewrite /= IH. Qed.

Lemma glob_match_refl (l : list ascii) : glob_match l l.
Proof.
  exists ((λ c, [c]) <$> l). split.
  - induction l as [|c l IH]; constructor; [|done].
    rewrite /piece_ok. by repeat case_decide.
  - induction l as [|c l IH]; [done|]. by rewrite /= IH.
Qed.

Lemma glob_match_app (t1 t2 p1 p2 : list ascii) :
  glob_match t1 p1 → glob_match t2 p2 → glob_match (t1 ++ t2) (p1 ++ p2).
Proof.
  intros (k1 & H1 & <-) (k2 & H2 & <-). exists (k1 ++ k2).
  split; [by apply Forall2_app|]. by rewrite concat_app.
Qed.

Lemma glob_match_star (l : list ascii) : glob_match l ["*"%char].
Proof. exists [l]. split; [by repeat constructor|]. by rewrite /= app_nil_r. Qed.

(** Without wildcard characters every piece is the item itself. *)
Lemma glob_match_literal (t p : list ascii) :
  Forall (λ c, c ≠ "*"%char ∧ c ≠ "?"%char) p → glob_match t p → t = p.
Proof.
  intros Hlit (pieces & Hpieces & <-).
  induction Hpieces as [|c w p pieces Hw _ IH]; [done|].
  apply Forall_cons in Hlit as [[Hstar Hquest] Hlit].
  rewrite /piece_ok !decide_False // in Hw. subst w. by rewrite /= IH.
Qed.

(** Without [*] every piece is one character. *)
Lemma glob_match_star_free (t p : list ascii) :
  Forall (λ c, c ≠ "*"%char) p → glob_match t p → length t = length p.
Proof.
  intros Hlit (pieces & Hpieces & <-).
  induction Hpieces as [|c w p pieces Hw _ IH]; [done|].
  apply Forall_cons in Hlit as [Hstar Hlit].
  rewrite /piece_ok decide_False // in Hw.
  rewrite /= length_app IH //.
  case_decide; [by rewrite Hw|]. by subst w.
Qed.

(** X1.  Every string matches itself taken as a pattern, wildcard
    characters included: a subscription to a topic receives what is
    published to that very topic. *)
Theorem is_matching_refl topic : is_matching topic topic = true.
Proof. apply is_matching_chars_glob, glob_match_refl. Qed.

(** X2.  A pattern without [*] and [?] matches one topic, itself. *)
Theorem is_matching_literal topic pattern :
  literal pattern → (is_matching topic pattern = true ↔ topic = pattern).
Proof.
  intros Hlit. rewrite /is_matching is_matching_chars_glob. split.
  - intros Hm. by apply list_ascii_of_string_inj, glob_match_literal.
  - intros ->. apply glob_match_refl.
Qed.

(** X3.  A pattern made of a prefix without wildcard characters and a final
    [*] matches exactly the topics that start with the prefix. *)
Theorem is_matching_prefix_star topic prefix :
  literal prefix →
  (is_matching topic (String.app prefix "*") = true ↔
   ∃ rest, topic = String.app prefix rest).
Proof.
  intros Hlit.
  rewrite /is_matching is_matching_chars_glob list_ascii_of_string_app. split.
  - intros (pieces & Hpieces & Hcat).
    apply Forall2_app_inv_l in Hpieces as (k1 & k2 & Hk1 & Hk2 & ->).
    rewrite concat_app in Hcat.
    assert (concat k1 = list_ascii_of_string prefix) as Hprefix.
    { apply glob_match_literal; [done|]. by exists k1. }
    exists (string_of_list_ascii (concat k2)).
    apply list_ascii_of_string_inj.
    by rewrite list_ascii_of_string_app list_ascii_of_string_of_list_ascii
      -Hcat Hprefix.
  - intros [rest ->]. rewrite list_ascii_of_string_app.
    apply glob_match_app; [apply glob_match_refl|apply glob_match_star].
Qed.

(** X4.  Matching goes through concatenation: when a first topic matches a
    first pattern and a second topic a second pattern, the topics put
    together match the patterns put together. *)
Theorem is_matching_app topic1 topic2 pattern1 pattern2 :
  is_matching topic1 pattern1 = true → is_matching topic2 pattern2 = true →
  is_matching (String.app topic1 topic2) (String.app pattern1 pattern2) = true.
Proof.
  rewrite /is_matching !is_matching_chars_glob !list_ascii_of_string_app.
  apply glob_match_app.
Qed.

(** X5.  A pattern without [*] matches only topics of its own length: [?]
    stands for one character, never none and never two. *)
Theorem is_matching_star_free_length topic pattern :
  star_free pattern → is_matching topic pattern = true →
  String.length topic = String.length pattern.
Proof.
  intros Hfree. rewrite /is_matching is_matching_chars_glob.
  intros Hm. rewrite -!length_list_ascii_of_string.
  by apply glob_match_star_free.
Qed.

End Matching.

(** Shows that a string has none of the characters excluded. *)
Ltac no_wildcard :=
  cbv [literal star_free list_ascii_of_string];
  repeat (apply Forall_cons_2; [done|]); apply Forall_nil_2.

(** The pattern ["data.trade"]. *)
Lemma is_matching_literal_witness :
  literal "data.trade" ∧
  (Wildcard.is_matching "data.quote" "data.trade" = true ↔ "data.quote" = "data.trade").
Proof.
  assert (literal "data.trade") as Hlit by no_wildcard.
  split; [done|]. by apply (is_matching_literal "data.quote" "data.trade").
Defined.

(** The pattern ["data.*"] and the topic ["data.trade"]. *)
Lemma is_matching_prefix_star_witness :
  literal "data." ∧ Wildcard.is_matching "data.trade" "data.*" = true.
Proof.
  assert (literal "data.") as Hlit by no_wildcard.
  split; [done|].
  apply (proj2 (is_matching_prefix_star "data.trade" "data." Hlit)).
  by exists "trade".
Defined.

(** ["data."] against ["d?ta."] and ["trade"] against ["*"]. *)
Lemma is_matching_app_witness :
  Wildcard.is_matching "data.trade" "d?ta.*" = true.
Proof. by apply (is_matching_app "data." "trade" "d?ta." "*"). Defined.

(** The pattern ["c??p"] and the topic ["coop"]. *)
Lemma is_matching_star_free_length_witness :
  star_free "c??p" ∧ String.length "coop" = String.length "c??p".
Proof.
  assert (star_free "c??p") as Hfree by no_wildcard.
  split; [done|]. by apply (is_matching_star_free_length "coop" "c??p").
Defined.

(* ===================================================================== *)
(** ** The ordering of subscriptions *)
(* ===================================================================== *)

(** X6.  The four ordering methods of [Subscription] agree with each other
    and order by priority alone, any two subscriptions being comparable,
    while [__eq__] does not look at the priority: a subscription equals the
    one with its topic and handler and any other priority. *)
Theorem Subscription_comparisons (a b : Subscription.t) :
  Subscription.gt a b = Subscription.lt b a ∧
  Subscription.le a b = negb (Subscription.lt b a) ∧
  Subscription.ge a b = negb (Subscription.lt a b) ∧
  Subscription.le a b || Subscription.le b a = true ∧
  Subscription.le a b && Subscription.ge a b
    = bool_decide (Subscription.priority a = Subscription.priority b) ∧
  ∀ priority,
    Subscription.eq a
      (Subscription.mk (Subscription.topic a) (Subscription.handler a) priority) = true.
Proof.
  rewrite /Subscription.gt /Subscription.lt /Subscription.le /Subscription.ge
    /Subscription.eq.
  split_and!; try (intros ?; simpl); repeat case_bool_decide; simpl; try done; lia.
Qed.

(* ===================================================================== *)
(** ** The registry of endpoints *)
(* ===================================================================== *)

Section Registry.
Context (behaviour : list Event → Handler → Msg → Outcome).

(** *** The paths through [register] and [deregister] *)

Lemma register_taken s endpoint handler registered :
  endpoint ≠ "" → _endpoints s !! endpoint = Some registered →
  register (Some endpoint) (Some handler) s = (Raise AlreadyRegistered, s).
Proof.
  intros Hne Hsome.
  rewrite /register /Condition.valid_string /Condition.not_in. bus_simpl.
  rewrite bool_decide_eq_false_2 //= Hsome.
  by rewrite bool_decide_eq_true_2.
Qed.

Lemma deregister_absent s endpoint handler :
  endpoint ≠ "" → _endpoints s !! endpoint = None →
  deregister (Some endpoint) (Some handler) s = (Raise NotRegistered, s).
Proof.
  intros Hne Hnone.
  rewrite /deregister /Condition.valid_string /Condition.is_in. bus_simpl.
  rewrite bool_decide_eq_false_2 //= Hnone.
  by rewrite bool_decide_eq_false_2; [|apply is_Some_None].
Qed.

Lemma deregister_other s endpoint handler registered :
  endpoint ≠ "" → _endpoints s !! endpoint = Some registered →
  registered ≠ handler →
  deregister (Some endpoint) (Some handler) s = (Raise HandlerMismatch, s).
Proof.
  intros Hne Hsome Hother.
  rewrite /deregister /Condition.valid_string /Condition.is_in /Condition.equal.
  bus_simpl.
  rewrite bool_decide_eq_false_2 //= Hsome bool_decide_eq_true_2 //=.
  by rewrite bool_decide_eq_false_2.
Qed.

Lemma deregister_registered s endpoint handler :
  endpoint ≠ "" → _endpoints s !! endpoint = Some handler →
  deregister (Some endpoint) (Some handler) s =
    (Ok tt, set_trace (trace s ++ [Logged DEBUG (RemovedEndpoint endpoint handler)])
              (set_endpoints (delete endpoint (_endpoints s)) s)).
Proof.
  intros Hne Hsome.
  rewrite /deregister /Condition.valid_string /Condition.is_in /Condition.equal.
  bus_simpl.
  rewrite bool_decide_eq_false_2 //= Hsome bool_decide_eq_true_2 //=.
  by rewrite bool_decide_eq_true_2.
Qed.

Lemma send_registered s endpoint msg handler :
  _endpoints s !! endpoint = Some handler →
  send behaviour (Some endpoint) (Some msg) s =
    let s' := set_trace (trace s ++ [Called handler msg]) s in
    match behaviour (trace s) handler msg with
    | Returns => (Ok tt, set_sent_count (sent_count s + 1)%Z s')
    | Raises => (Raise (HandlerRaised handler), s')
    end.
Proof.
  intros Hsome. rewrite /send /invoke. bus_simpl. rewrite Hsome /=.
  by destruct (behaviour _ _ _).
Qed.

Lemma send_unregistered s endpoint msg :
  _endpoints s !! endpoint = None →
  send behaviour (Some endpoint) (Some msg) s =
    (Ok tt, set_trace (trace s ++ [Logged ERROR (CannotSend endpoint)]) s).
Proof. intros Hnone. rewrite /send. bus_simpl. by rewrite Hnone. Qed.

(** X7.  [register] with an endpoint name and a handler returns exactly
    when the name is not empty and not taken, and then records the handler
    at the name; otherwise it raises and leaves the bus as it was, the
    handler registered before included. *)
Theorem register_outcomes s endpoint handler :
  let result := (register (Some endpoint) (Some handler) s).1 in
  let s' := (register (Some endpoint) (Some handler) s).2 in
  (result = Ok tt ↔ endpoint ≠ "" ∧ _endpoints s !! endpoint = None) ∧
  (result = Ok tt →
     _endpoints s' = <[endpoint := handler]> (_endpoints s) ∧
     ∀ msg, calls (trace (send behaviour (Some endpoint) (Some msg) s').2)
            = calls (trace s) ++ [(handler, msg)]) ∧
  (result ≠ Ok tt → s' = s) ∧
  (endpoint ≠ "" → is_Some (_endpoints s !! endpoint) →
     result = Raise AlreadyRegistered).
Proof.
  intros result s'. subst result s'.
  destruct (decide (endpoint = "")) as [->|Hne].
  { assert (register (Some "") (Some handler) s = (Raise InvalidArgument, s)) as ->
      by done.
    split_and!; try done. split; [done|by intros [? _]]. }
  destruct (_endpoints s !! endpoint) as [registered|] eqn:Hep.
  - rewrite (register_taken _ _ _ registered) //=.
    split_and!; try done. split; [done|by intros [_ ?]].
  - rewrite register_new //=. split_and!; try done.
    intros _. split; [done|]. intros msg.
    rewrite (send_registered _ _ _ handler) /=; [|by rewrite lookup_insert_eq].
    destruct (behaviour _ _ _); by rewrite /= !calls_app /= app_nil_r.
Qed.

(** X8.  After a [register] that returns, [deregister] of the same name
    and handler returns too and the registry is what it was before the two
    calls; nothing else has changed but the log. *)
Theorem register_deregister_round_trip s endpoint handler :
  (register (Some endpoint) (Some handler) s).1 = Ok tt →
  let s1 := (register (Some endpoint) (Some handler) s).2 in
  let s2 := (deregister (Some endpoint) (Some handler) s1).2 in
  (deregister (Some endpoint) (Some handler) s1).1 = Ok tt ∧
  _endpoints s2 = _endpoints s ∧
  _correlation_index s2 = _correlation_index s ∧
  same_tables s s2 ∧ same_config s s2 ∧
  sent_count s2 = sent_count s ∧ req_count s2 = req_count s ∧
  res_count s2 = res_count s ∧ pub_count s2 = pub_count s ∧
  trace s2 = trace s ++ [Logged DEBUG (AddedEndpoint endpoint handler);
                         Logged DEBUG (RemovedEndpoint endpoint handler)].
Proof.
  intros [Hne Hfree]%register_ok_inv s1 s2. subst s1 s2.
  rewrite register_new // deregister_registered //=; [|by rewrite lookup_insert_eq].
  split_and!; try done.
  - by rewrite delete_insert_eq delete_id.
  - by rewrite -app_assoc.
Qed.

(** X9.  [deregister] with a name that is not empty: on a name that is not
    registered it raises [NotRegistered], on a name registered with another
    handler it raises [HandlerMismatch], and in both cases the bus is as it
    was; on a name registered with the handler it returns and only that
    name leaves the registry.  The lookup of the registered handler never
    raises a [KeyError]. *)
Theorem deregister_outcomes s endpoint handler :
  endpoint ≠ "" →
  let result := (deregister (Some endpoint) (Some handler) s).1 in
  let s' := (deregister (Some endpoint) (Some handler) s).2 in
  (_endpoints s !! endpoint = None → result = Raise NotRegistered ∧ s' = s) ∧
  (∀ registered, _endpoints s !! endpoint = Some registered → registered ≠ handler →
     result = Raise HandlerMismatch ∧ s' = s) ∧
  (_endpoints s !! endpoint = Some handler →
     result = Ok tt ∧ _endpoints s' !! endpoint = None ∧
     ∀ other, other ≠ endpoint → _endpoints s' !! other = _endpoints s !! other) ∧
  result ≠ Raise KeyError.
Proof.
  intros Hne result s'. subst result s'.
  destruct (_endpoints s !! endpoint) as [registered|] eqn:Hep.
  - destruct (decide (registered = handler)) as [->|Hother].
    + rewrite deregister_registered //=. split_and!; try done.
      * by intros registered [= <-] ?.
      * intros _. split_and!; [done|apply lookup_delete_eq|].
        intros other Hother. by apply lookup_delete_ne.
    + rewrite (deregister_other _ _ _ registered) //=. split_and!; try done.
      by intros [= ->].
  - rewrite deregister_absent //.
Qed.

(** X10.  After a [deregister] that returns, a [send] to the name reaches
    no handler: it returns, having only logged an error, and [sent_count]
    is as it was. *)
Theorem deregister_then_send s endpoint handler msg :
  (deregister (Some endpoint) (Some handler) s).1 = Ok tt →
  let s1 := (deregister (Some endpoint) (Some handler) s).2 in
  let s2 := (send behaviour (Some endpoint) (Some msg) s1).2 in
  (send behaviour (Some endpoint) (Some msg) s1).1 = Ok tt ∧
  calls (trace s2) = calls (trace s) ∧
  sent_count s2 = sent_count s.
Proof.
  intros Hok s1 s2. subst s1 s2.
  destruct (decide (endpoint = "")) as [->|Hne]; [done|].
  destruct (_endpoints s !! endpoint) as [registered|] eqn:Hep;
    [|by rewrite deregister_absent in Hok].
  destruct (decide (registered = handler)) as [->|Hother];
    [|by rewrite (deregister_other _ _ _ registered) in Hok].
  rewrite deregister_registered // send_unregistered /=;
    [|apply lookup_delete_eq].
  by rewrite !calls_app /= !app_nil_r.
Qed.

(** X11.  [endpoints()] returns the registered names, each once. *)
Theorem endpoints_lists_registered s :
  ∃ names, endpoints s = (Ok names, s) ∧ NoDup names ∧
    ∀ endpoint, endpoint ∈ names ↔ is_Some (_endpoints s !! endpoint).
Proof.
  exists (map_to_list (_endpoints s)).*1. split_and!; [done| |].
  - apply NoDup_fst_map_to_list.
  - intros endpoint. rewrite list_elem_of_fmap. split.
    + intros ([e h] & -> & Hin). apply elem_of_map_to_list in Hin. by rewrite Hin.
    + intros [h Hh]. exists (endpoint, h). split; [done|].
      by apply elem_of_map_to_list.
Qed.

End Registry.

(** [register("svc", h1)] on a new bus, then [register("svc", h2)]. *)
Lemma register_outcomes_witness :
  (register (Some "svc") (Some Example.h1) Example.bus).1 = Ok tt ∧
  let s := Example.run [call_register (Some "svc") (Some Example.h1)] Example.bus in
  (register (Some "svc") (Some Example.h2) s).1 = Raise AlreadyRegistered ∧
  (register (Some "svc") (Some Example.h2) s).2 = s.
Proof.
  split.
  - destruct (register_outcomes Example.returning Example.bus "svc" Example.h1)
      as (Hiff & _). apply Hiff. by split; [|vm_compute].
  - intros s.
    destruct (register_outcomes Example.returning s "svc" Example.h2)
      as (_ & _ & Hsame & Htaken).
    assert ((register (Some "svc") (Some Example.h2) s).1 = Raise AlreadyRegistered)
      as Hraise by (apply Htaken; [done|vm_compute; by eexists]).
    split; [done|]. apply Hsame. by rewrite Hraise.
Defined.

(** [register("svc", h1)] then [deregister("svc", h1)] on a new bus. *)
Lemma register_deregister_round_trip_witness :
  let s1 := (register (Some "svc") (Some Example.h1) Example.bus).2 in
  let s2 := (deregister (Some "svc") (Some Example.h1) s1).2 in
  (deregister (Some "svc") (Some Example.h1) s1).1 = Ok tt ∧
  _endpoints s2 = _endpoints Example.bus.
Proof.
  intros s1 s2.
  destruct (register_deregister_round_trip Example.bus "svc" Example.h1)
    as (Hok & Hep & _); [reflexivity|].
  by split.
Defined.

(** [deregister("svc", h2)] when [h1] is registered at ["svc"]. *)
Lemma deregister_outcomes_witness :
  let s := Example.run [call_register (Some "svc") (Some Example.h1)] Example.bus in
  deregister (Some "nope") (Some Example.h1) s = (Raise NotRegistered, s) ∧
  deregister (Some "svc") (Some Example.h2) s = (Raise HandlerMismatch, s) ∧
  (deregister (Some "svc") (Some Example.h1) s).1 = Ok tt.
Proof.
  intros s. split_and!.
  - destruct (deregister_outcomes s "nope" Example.h1) as ([Hr Hs] & _);
      [done..|].
    by apply injective_projections.
  - destruct (deregister_outcomes s "svc" Example.h2) as (_ & Hother & _); [done|].
    destruct (Hother Example.h1) as [Hr Hs]; [done..|].
    by apply injective_projections.
  - destruct (deregister_outcomes s "svc" Example.h1) as (_ & _ & Hsame & _); [done|].
    by apply Hsame.
Defined.

(** [send("svc", tick)] once ["svc"] has been registered and deregistered. *)
Lemma deregister_then_send_witness :
  let s := Example.run [call_register (Some "svc") (Some Example.h1)] Example.bus in
  let s1 := (deregister (Some "svc") (Some Example.h1) s).2 in
  let s2 := (send Example.returning (Some "svc") (Some Example.tick) s1).2 in
  calls (trace s2) = [] ∧ sent_count s2 = 0%Z.
Proof.
  intros s s1 s2.
  destruct (deregister_then_send Example.returning s "svc" Example.h1 Example.tick)
    as (_ & Hcalls & Hsent); [reflexivity|].
  by split.
Defined.

(* ===================================================================== *)
(** ** What each method can change *)
(* ===================================================================== *)

#[global] Instance agree_on_refl {A} (f : MessageBus → A) : Reflexive (agree_on f).
Proof. by intros s. Qed.
#[global] Instance agree_on_trans {A} (f : MessageBus → A) : Transitive (agree_on f).
Proof. rewrite /agree_on. intros s1 s2 s3 ??. congruence. Qed.

(** Unfolds the methods down to their steps. *)
Ltac unfold_methods :=
  rewrite /endpoints /topics /has_subscribers /subscriptions /is_subscribed
    /is_pending_request /register /deregister /send /request /response
    /subscribe /unsubscribe /publish /publish_c /_resolve_subscriptions
    /subscribe_body /unsubscribe_body /invoke.

Section CallFrames.
Context (behaviour : list Event → Handler → Msg → Outcome).

(** X12.  The registry of endpoints changes with [register] and
    [deregister] only, the pending requests with [request] and [response]
    only, the subscription index and the resolution cache with
    [subscribe], [unsubscribe] and [publish] only; what was fixed when the
    bus was made never changes. *)
Theorem call_frames c s :
  let s' := after behaviour c s in
  match c with
  | call_register _ _ | call_deregister _ _ => True
  | _ => _endpoints s' = _endpoints s
  end ∧
  match c with
  | call_request _ _ | call_response _ => True
  | _ => _correlation_index s' = _correlation_index s
  end ∧
  match c with
  | call_subscribe _ _ _ | call_unsubscribe _ _ | call_publish _ _ => True
  | _ => _patterns s' = _patterns s ∧ _subscriptions s' = _subscriptions s
  end ∧
  _has_backing s' = _has_backing s ∧ _serializer s' = _serializer s ∧
  _publishable_types s' = _publishable_types s.
Proof.
  intros s'. subst s'.
  split_and!; [| | |apply after_same_config..].
  - destruct c; cbv [after]; try done;
      match goal with
      | |- _endpoints (?m s).2 = _ =>
          revert s; change (steady (agree_on _endpoints) m)
      end; unfold_methods; steady_steps.
  - destruct c; cbv [after]; try done;
      match goal with
      | |- _correlation_index (?m s).2 = _ =>
          revert s; change (steady (agree_on _correlation_index) m)
      end; unfold_methods; steady_steps.
  - destruct c; cbv [after]; try done;
      match goal with
      | |- _ (?m s).2 = _ ∧ _ => revert s; change (steady same_tables m)
      end; unfold_methods; steady_steps.
Qed.

(** X13.  A call changes no counter but its own, and that one by one at
    most: [sent_count] moves with [send], [req_count] with [request],
    [res_count] with [response] and [pub_count] with [publish], each
    staying or going up by one; the other methods leave the four counters
    as they are. *)
Theorem call_counters c s :
  let s' := after behaviour c s in
  let step (count : MessageBus → Z) :=
    count s' = count s ∨ count s' = (count s + 1)%Z in
  match c with
  | call_send _ _ =>
      step sent_count ∧ req_count s' = req_count s ∧
      res_count s' = res_count s ∧ pub_count s' = pub_count s
  | call_request _ _ =>
      sent_count s' = sent_count s ∧ step req_count ∧
      res_count s' = res_count s ∧ pub_count s' = pub_count s
  | call_response _ =>
      sent_count s' = sent_count s ∧ req_count s' = req_count s ∧
      step res_count ∧ pub_count s' = pub_count s
  | call_publish _ _ =>
      sent_count s' = sent_count s ∧ req_count s' = req_count s ∧
      res_count s' = res_count s ∧ step pub_count
  | _ =>
      sent_count s' = sent_count s ∧ req_count s' = req_count s ∧
      res_count s' = res_count s ∧ pub_count s' = pub_count s
  end.
Proof.
  intros s' step. subst s' step.
  destruct c as [| |p|p|t h|id|e h|e h|endpoint msg|endpoint req|resp|t h p|t h
                |topic msg];
    cbv [after]; cbn beta; split_and!;
    try solve
      [ match goal with
        | |- ?f (?m s).2 = _ => revert s; change (steady (agree_on f) m)
        end; unfold_methods; steady_steps ].
  - (* send *)
    destruct endpoint as [endpoint|], msg as [msg|]; try by left.
    destruct (_endpoints s !! endpoint) as [handler|] eqn:Hep.
    + rewrite (send_registered _ _ _ _ handler) //. cbn zeta.
      destruct (behaviour _ _ _); simpl; auto.
    + rewrite send_unregistered //. by left.
  - (* request *)
    destruct endpoint as [endpoint|], req as [r|]; try by left.
    destruct (_correlation_index s !! Request.id r) as [cb|] eqn:Hid.
    { rewrite request_duplicate; [|by rewrite Hid]. by left. }
    destruct (_endpoints s !! endpoint) as [handler|] eqn:Hep.
    + rewrite (request_dispatch _ _ _ _ handler) //. cbn zeta.
      destruct (behaviour _ _ _); simpl; auto.
    + rewrite request_no_endpoint //. by left.
  - (* response *)
    destruct resp as [resp|]; [|by left].
    destruct (_correlation_index s !! Response.correlation_id resp) as [cb|] eqn:Hid.
    + rewrite (response_dispatch _ _ _ cb) //. cbn zeta.
      destruct (behaviour _ _ _); simpl; auto.
    + rewrite response_unknown //. by left.
  - (* publish *)
    destruct topic as [topic|], msg as [msg|]; try by left.
    destruct (publish_spec behaviour topic msg s) as (k & _ & Hspec).
    destruct (publish behaviour (Some topic) (Some msg) s) as [[[]|e] s'];
      simpl in *.
    + destruct Hspec as [_ ->]. by right.
    + destruct Hspec as [_ ->]. left. apply after_resolution_pub_count.
Qed.

(** X14.  After [request(endpoint, r)] the id of [r] is pending, whether the
    request was dispatched, found no endpoint, repeated a pending id, or its
    handler raised; after [response(resp)] the correlation id of [resp] is
    not pending, whether a callback was found and whether it raised.  Each
    leaves the other ids as they were. *)
Theorem pending_requests s endpoint r resp :
  let pending id s := (is_pending_request (Some id) s).1 in
  let s1 := (request behaviour (Some endpoint) (Some r) s).2 in
  let s2 := (response behaviour (Some resp) s).2 in
  pending (Request.id r) s1 = Ok true ∧
  (∀ id, id ≠ Request.id r → pending id s1 = pending id s) ∧
  pending (Response.correlation_id resp) s2 = Ok false ∧
  (∀ id, id ≠ Response.correlation_id resp → pending id s2 = pending id s).
Proof.
  intros pending s1 s2. subst pending s1 s2. cbn beta.
  assert (_correlation_index (request behaviour (Some endpoint) (Some r) s).2
          = match _correlation_index s !! Request.id r with
            | Some _ => _correlation_index s
            | None => <[Request.id r := Request.callback r]> (_correlation_index s)
            end)
    as Hreq.
  { destruct (_correlation_index s !! Request.id r) as [cb|] eqn:Hid.
    { by rewrite request_duplicate; [|rewrite Hid]. }
    destruct (_endpoints s !! endpoint) as [handler|] eqn:Hep.
    - rewrite (request_dispatch _ _ _ _ handler) //. cbn zeta.
      by destruct (behaviour _ _ _).
    - by rewrite request_no_endpoint. }
  assert (_correlation_index (response behaviour (Some resp) s).2
          = delete (Response.correlation_id resp) (_correlation_index s)) as Hres.
  { destruct (_correlation_index s !! Response.correlation_id resp) as [cb|] eqn:Hid.
    - rewrite (response_dispatch _ _ _ cb) //. cbn zeta.
      by destruct (behaviour _ _ _).
    - by rewrite response_unknown. }
  rewrite !is_pending_request_eq /= Hreq Hres. split_and!.
  - f_equal. apply bool_decide_eq_true_2.
    destruct (_correlation_index s !! Request.id r) eqn:Hid; [by rewrite Hid|].
    by rewrite lookup_insert_eq.
  - intros id Hid.
    destruct (_correlation_index s !! Request.id r); [done|].
    by rewrite lookup_insert_ne.
  - by rewrite lookup_delete_eq.
  - intros id Hid. by rewrite lookup_delete_ne.
Qed.

End CallFrames.

(** A request with id 7 to an endpoint that is not registered. *)
Lemma pending_requests_witness :
  let r := Request.mk 7 Example.h2 in
  let s1 := (request Example.returning (Some "nope") (Some r) Example.bus).2 in
  (is_pending_request (Some 7%N) s1).1 = Ok true ∧
  (is_pending_request (Some 8%N) s1).1 = (is_pending_request (Some 8%N) Example.bus).1.
Proof.
  intros r s1.
  destruct (pending_requests Example.returning Example.bus "nope" r (Response.mk 7))
    as (Hown & Hother & _).
  split; [done|]. by apply Hother.
Defined.

(* ===================================================================== *)
(** ** Subscribing and unsubscribing *)
(* ===================================================================== *)

Section Subscribing.
Context (behaviour : list Event → Handler → Msg → Outcome).
Import Wildcard.

(** The dictionary looks at the topic and the handler of a key only. *)
Lemma dict_get_key a b d :
  Subscription.key a = Subscription.key b → dict_get a d = dict_get b d.
Proof.
  intros Hkey. induction d as [|[k v] d IH]; [done|]. simpl.
  assert (Subscription.eq k a = Subscription.eq k b) as ->; [|by rewrite IH].
  rewrite /Subscription.eq. by injection Hkey as -> ->.
Qed.

Lemma is_subscribed_eq t h s :
  t ≠ "" →
  is_subscribed (Some t) (Some h) s
  = (Ok (dict_contains (Subscription.mk t h 0) (_subscriptions s)), s).
Proof.
  intros Ht. rewrite /is_subscribed /Condition.valid_string /Condition.callable.
  rewrite bool_decide_eq_false_2 // /mbind /M_bind /lift /get.
  by rewrite Subscription_init_valid.
Qed.

Lemma is_subscribed_false t h s :
  t ≠ "" → (is_subscribed (Some t) (Some h) s).1 = Ok false ↔
  dict_get (Subscription.mk t h 0) (_subscriptions s) = None.
Proof.
  intros Ht. rewrite is_subscribed_eq // /dict_contains /=.
  case_bool_decide as Hsome.
  - split; [done|]. intros Hnone. rewrite Hnone in Hsome. by destruct Hsome.
  - split; [|done]. intros _. by apply eq_None_not_Some.
Qed.

(** [subscribe] of a topic and handler that are in the index. *)
Lemma subscribe_present t h priority s :
  t ≠ "" → (0 ≤ priority)%Z →
  is_Some (dict_get (Subscription.mk t h 0) (_subscriptions s)) →
  subscribe (Some t) (Some h) priority s =
    (Ok tt, set_trace
              (trace s ++ [Logged DEBUG (AlreadyExists (Subscription.mk t h priority))])
              s).
Proof.
  intros Ht Hp Hsome. rewrite subscribe_valid //; [|lia]. cbn zeta.
  rewrite /dict_contains bool_decide_eq_true_2 //.
  by rewrite (dict_get_key _ (Subscription.mk t h 0)).
Qed.

(** [subscribe] of a topic and handler that are not in the index. *)
Lemma subscribe_new t h priority s :
  t ≠ "" → (0 ≤ priority)%Z →
  dict_get (Subscription.mk t h 0) (_subscriptions s) = None →
  let sub := Subscription.mk t h priority in
  let matches := filter (λ T, is_matching t T) (map_to_list (_patterns s)).*1 in
  ∃ cache',
    subscribe (Some t) (Some h) priority s =
      (Ok tt,
       set_trace (trace s ++ [Logged DEBUG (AddedSubscription sub)])
         (set_subscriptions (_subscriptions s ++ [(sub, sorted_str matches)])
            (set_patterns cache' s))) ∧
    ∀ T, cache' !! T =
      if decide (T ∈ matches)
      then (λ subs, sorted_reverse (subs ++ [sub])) <$> _patterns s !! T
      else _patterns s !! T.
Proof.
  intros Ht Hp Hnone sub matches. rewrite subscribe_valid //; [|lia]. cbn zeta.
  fold sub.
  assert (dict_get sub (_subscriptions s) = None) as Hnew.
  { by rewrite (dict_get_key _ (Subscription.mk t h 0)). }
  rewrite /dict_contains bool_decide_eq_false_2; [|rewrite Hnew; apply is_Some_None].
  destruct (subscribe_loop t sub (map_to_list (_patterns s)).*1 [] s)
    as (cache' & Hfold & Hcache').
  { apply NoDup_fst_map_to_list. }
  { intros T ([T' subs] & -> & Hin)%list_elem_of_fmap.
    apply elem_of_map_to_list in Hin. by rewrite Hin. }
  exists cache'. split; [|done].
  rewrite /subscriptions_setitem /mbind /M_bind Hfold. bus_simpl.
  by rewrite dict_set_new.
Qed.



Lemma dict_get_app_new a b v d :
  dict_get a d = None → Subscription.key a = Subscription.key b →
  dict_get a (d ++ [(b, v)]) = Some v.
Proof.
  intros Hnone Hkey. induction d as [|[k v'] d IH]; simpl in *.
  - by rewrite (Is_true_true_1 (Subscription.eq b a)); [|apply Subscription_eq_key].
  - destruct (Subscription.eq k a); [done|]. by apply IH.
Qed.




(** After [subscribe] with arguments that pass the checks the topic and
    handler are in the index, and the call has returned. *)
Lemma subscribe_indexed t h priority s :
  t ≠ "" → (0 ≤ priority)%Z →
  (subscribe (Some t) (Some h) priority s).1 = Ok tt ∧
  is_Some (dict_get (Subscription.mk t h 0)
             (_subscriptions (subscribe (Some t) (Some h) priority s).2)).
Proof.
  intros Ht Hp.
  destruct (dict_get (Subscription.mk t h 0) (_subscriptions s)) as [v|] eqn:Hget.
  - rewrite subscribe_present //=; by rewrite Hget.
  - destruct (subscribe_new t h priority s) as (cache' & -> & _); [done..|].
    simpl. split; [done|]. by erewrite dict_get_app_new.
Qed.


Lemma elem_of_index_key sub (d : SubscriptionDict) :
  is_Some (dict_get sub d) →
  ∃ k, k ∈ d.*1 ∧ Subscription.key k = Subscription.key sub.
Proof.
  intros [v (k & Hin & Hkey)%dict_get_Some]. exists k. split; [|done].
  apply list_elem_of_fmap. by exists (k, v).
Qed.

(** X15.  [subscribe] with a topic that is not empty, a handler and a
    priority that is not negative returns; a second [subscribe] of the same
    topic and handler, with whatever priority, returns too and changes
    nothing but the log: the first subscription and its priority stay. *)
Theorem subscribe_again_keeps_first s topic handler priority priority' :
  topic ≠ "" → (0 ≤ priority)%Z → (0 ≤ priority')%Z →
  let s1 := (subscribe (Some topic) (Some handler) priority s).2 in
  (subscribe (Some topic) (Some handler) priority s).1 = Ok tt ∧
  subscribe (Some topic) (Some handler) priority' s1 =
    (Ok tt,
     set_trace
       (trace s1 ++
          [Logged DEBUG (AlreadyExists (Subscription.mk topic handler priority'))])
       s1).
Proof.
  intros Ht Hp Hp' s1. subst s1.
  destruct (subscribe_indexed topic handler priority s) as [Hok Hin]; [done..|].
  split; [done|]. by apply subscribe_present.
Qed.

(** X16.  After [subscribe] with a topic that is not empty, a handler and a
    priority that is not negative, [is_subscribed] of the topic and the
    handler is true, [has_subscribers] is true of the topic and of no
    pattern at all, and [topics()] holds the topic. *)
Theorem subscribe_then_is_subscribed s topic handler priority :
  topic ≠ "" → (0 ≤ priority)%Z →
  let s1 := (subscribe (Some topic) (Some handler) priority s).2 in
  (is_subscribed (Some topic) (Some handler) s1).1 = Ok true ∧
  (has_subscribers (Some topic) s1).1 = Ok true ∧
  (has_subscribers None s1).1 = Ok true ∧
  ∃ names, (topics s1).1 = Ok names ∧ topic ∈ names.
Proof.
  intros Ht Hp s1.
  destruct (subscribe_indexed topic handler priority s) as [_ Hin]; [done..|].
  fold s1 in Hin.
  destruct (elem_of_index_key _ _ Hin) as (k & Hk & [= Htopic _]).
  assert (∀ pattern, is_matching topic pattern = true →
            0 < length (filter (λ sub, is_matching (Subscription.topic sub) pattern)
                          (_subscriptions s1).*1)) as Hfound.
  { intros pattern Hm.
    assert (k ∈ filter (λ sub, is_matching (Subscription.topic sub) pattern)
                  (_subscriptions s1).*1) as Hfilter.
    { apply list_elem_of_filter. by rewrite Htopic Hm. }
    destruct (filter _ _); [by apply elem_of_nil in Hfilter|simpl; lia]. }
  split_and!.
  - rewrite is_subscribed_eq //= /dict_contains. by rewrite bool_decide_eq_true_2.
  - rewrite /has_subscribers /subscriptions /Condition.valid_string. bus_simpl.
    rewrite bool_decide_eq_false_2 //=. f_equal. apply bool_decide_eq_true_2.
    apply Hfound, WildcardFacts.is_matching_chars_glob, glob_match_refl.
  - rewrite /has_subscribers /subscriptions /Condition.valid_string. bus_simpl.
    f_equal. apply bool_decide_eq_true_2.
    apply Hfound, WildcardFacts.is_matching_chars_glob, glob_match_star.
  - eexists. split; [done|].
    apply elem_of_sorted_str, elem_of_remove_dups, list_elem_of_fmap.
    by exists k.
Qed.




(** X20.  A cached topic without wildcard characters gets a new
    subscription into its cached sequence only when the topic of the
    subscription is that very topic: after the [subscribe] of a pattern
    other than the topic itself, the sequence to which a publish on the
    topic dispatches is what it was, also when the pattern matches the
    topic. *)
Theorem subscribe_updates_cached_literal s topic handler priority cached subs :
  topic ≠ "" → (0 ≤ priority)%Z →
  (is_subscribed (Some topic) (Some handler) s).1 = Ok false →
  literal cached → _patterns s !! cached = Some subs →
  let s' := (subscribe (Some topic) (Some handler) priority s).2 in
  _patterns s' !! cached =
    Some (if decide (topic = cached)
          then sorted_reverse (subs ++ [Subscription.mk topic handler priority])
          else subs) ∧
  (topic ≠ cached → resolved cached s' = resolved cached s).
Proof.
  intros Ht Hp Hnone%is_subscribed_false Hlit Hcached s'; [|done].
  destruct (subscribe_new topic handler priority s) as (cache' & Hs' & Hcache');
    [done..|].
  assert (_patterns s' = cache') as Hpatterns by (by rewrite /s' Hs').
  assert (_patterns s' !! cached =
            Some (if decide (topic = cached)
                  then sorted_reverse (subs ++ [Subscription.mk topic handler priority])
                  else subs)) as Hlookup.
  { rewrite Hpatterns Hcache' Hcached /=.
    destruct (decide (topic = cached)) as [->|Hne].
    - rewrite decide_True //. apply list_elem_of_filter. split.
      + apply Is_true_true, WildcardFacts.is_matching_chars_glob, glob_match_refl.
      + apply list_elem_of_fmap. exists (cached, subs). split; [done|].
        by apply elem_of_map_to_list.
    - rewrite decide_False //.
      intros [Hm%Is_true_true _]%list_elem_of_filter. apply Hne.
      apply WildcardFacts.is_matching_chars_glob in Hm.
      by apply list_ascii_of_string_inj, glob_match_literal. }
  split; [done|]. intros Hne.
  by rewrite /resolved Hlookup Hcached decide_False.
Qed.

End Subscribing.

(* ===================================================================== *)
(** ** More on publishing *)
(* ===================================================================== *)

Section Publishing.
Context (behaviour : list Event → Handler → Msg → Outcome).
Import Wildcard.

(** X21.  [publish] calls the handlers of the sequence it resolves one
    after the other, each on what has been observed before its call.  It
    returns when all of them return, and then every one has been called and
    the publication is counted; otherwise it raises what the first handler
    that raises has raised: the handlers before it have returned, those
    after it are not called, nothing is handed to the external sink and
    [pub_count] is as it was. *)
Theorem publish_stops_at_first_raise s topic msg :
  let subs := resolved topic s in
  let s' := (publish behaviour (Some topic) (Some msg) s).2 in
  let outcome i sub :=
    behaviour (trace s ++ dispatch_of msg (take i subs)) (Subscription.handler sub) msg in
  match (publish behaviour (Some topic) (Some msg) s).1 with
  | Ok _ =>
      (∀ i sub, subs !! i = Some sub → outcome i sub = Returns) ∧
      calls (trace s')
        = calls (trace s) ++ ((λ sub, (Subscription.handler sub, msg)) <$> subs) ∧
      pub_count s' = (pub_count s + 1)%Z
  | Raise e =>
      ∃ i sub, subs !! i = Some sub ∧ e = HandlerRaised (Subscription.handler sub) ∧
        outcome i sub = Raises ∧
        (∀ j sub', j < i → subs !! j = Some sub' → outcome j sub' = Returns) ∧
        trace s' = trace s ++ dispatch_of msg (take (S i) subs) ∧
        pub_count s' = pub_count s
  end.
Proof.
  intros subs s' outcome. subst s' outcome.
  pose proof (after_resolution_trace topic s) as Htrace.
  pose proof (after_resolution_pub_count topic s) as Hpub.
  set (s1 := after_resolution topic s) in *.
  pose proof (dispatch_outcome behaviour subs msg s1) as Hd. cbn zeta in Hd.
  rewrite Htrace in Hd.
  assert ((match _patterns s !! topic with
           | Some subs => mret subs
           | None => _resolve_subscriptions topic
           end) s = (Ok subs, s1)) as Hres.
  { rewrite /subs /s1 /resolved /after_resolution.
    destruct (_patterns s !! topic) eqn:Hc; [done|].
    by rewrite _resolve_subscriptions_eq /= resolved_uncached // /resolved Hc. }
  rewrite /publish /publish_c. bus_simpl. rewrite Hres /=.
  destruct (for_each subs _ s1) as [[[]|e] s2]; simpl in *.
  - destruct Hd as [-> Hall]. simpl.
    destruct (_has_backing s1), (_serializer s1) as [serializer|]; simpl;
      try destruct (isinstance msg _); simpl; (split; [done|]);
      rewrite ?calls_app ?calls_dispatch_of /= ?app_nil_r ?Hpub //.
  - destruct Hd as (i & sub & Hi & -> & Hraises & Hbefore & ->).
    exists i, sub. by split_and!.
Qed.





(** *** The external sink *)

Lemma log_quiet level message :
  steady (agree_on (λ s, emissions (trace s))) (log level message).
Proof. intros s. by rewrite /agree_on /= emissions_app /= app_nil_r. Qed.

Lemma invoke_quiet handler msg :
  steady (agree_on (λ s, emissions (trace s))) (invoke behaviour handler msg).
Proof.
  intros s. rewrite /invoke. bus_simpl.
  by destruct (behaviour _ _ _); rewrite /agree_on /= emissions_app /= app_nil_r.
Qed.

(** Only [publish] hands anything to the external sink, and only on a bus
    with a database and a serializer. *)
Lemma after_quiet c s :
  _has_backing s = false ∨ _serializer s = None →
  emissions (trace (after behaviour c s)) = emissions (trace s).
Proof.
  intros Hnone.
  destruct c as [| |p|p|t h|id|e h|e h|endpoint msg|endpoint req|resp|t h p|t h
                |topic msg];
    cbv [after];
    try solve
      [ revert s Hnone; intros s _;
        match goal with
        | |- _ (trace (?m s).2) = _ =>
            revert s; change (steady (agree_on (λ s, emissions (trace s))) m)
        end;
        rewrite /endpoints /topics /has_subscribers /subscriptions /is_subscribed
          /is_pending_request /register /deregister /send /request /response
          /subscribe /unsubscribe /subscribe_body /unsubscribe_body;
        repeat first
          [ apply log_quiet
          | apply invoke_quiet
          | (apply steady_bind; try apply _); [|intros ?]
          | apply steady_ret; try apply _
          | apply steady_lift; try apply _
          | apply steady_get; try apply _
          | (apply steady_for_each; try apply _); intros ?
          | (apply steady_fold_each; try apply _); intros ? ?
          | apply steady_modify; intros ?; by repeat split
          | progress (rewrite /patterns_getitem /patterns_setitem
                        /subscriptions_setitem)
          | case_match ] ].
  destruct topic as [topic|], msg as [msg|]; try done.
  destruct (publish_spec behaviour topic msg s) as (k & _ & Hspec).
  destruct (publish behaviour (Some topic) (Some msg) s) as [[[]|e] s'];
    simpl in *.
  - destruct Hspec as [_ ->].
    rewrite /= !emissions_app emissions_dispatch_of /=.
    destruct Hnone as [-> | ->]; [|destruct (_has_backing s)];
      by rewrite /= app_nil_r.
  - destruct Hspec as [_ ->].
    by rewrite /= emissions_app emissions_dispatch_of app_nil_r.
Qed.

(** X23.  A bus made without a serializer, or with a configuration that
    names no database, never hands anything to the external sink, whatever
    is called on it and whatever the class of the messages published. *)
Theorem no_sink_never_emits EXTERNAL_PUBLISHING_TYPES name serializer config s0 s :
  MessageBus_init EXTERNAL_PUBLISHING_TYPES name serializer config = Ok s0 →
  serializer = None ∨
    MessageBusConfig.database (default MessageBusConfig.default config) = None →
  reachable_from behaviour s0 s →
  emissions (trace s) = [].
Proof.
  intros Hinit Hnone Hreach.
  assert (_has_backing s0 = false ∨ _serializer s0 = None) as Hnone0.
  { revert Hinit. rewrite /MessageBus_init /mbind /Result_bind.
    destruct (Condition.valid_string _); [|done]. intros [= <-]. simpl.
    destruct Hnone as [->| ->]; auto. }
  assert (emissions (trace s0) = []) as Hquiet0.
  { by apply MessageBus_init_fresh in Hinit as (_ & _ & _ & _ & _ & _ & _ & _ & ->). }
  clear Hinit Hnone. induction Hreach as [|c s Hreach IH]; [done|].
  rewrite after_quiet //.
  apply reachable_from_same_config in Hreach as (-> & -> & _). done.
Qed.


End Publishing.

(* ===================================================================== *)
(** ** Looking into the bus *)
(* ===================================================================== *)

Section Introspection.
Import Wildcard.

(** X25.  [topics()] returns the topics of the subscriptions of the index,
    each once, in ascending order. *)
Theorem topics_sorted_distinct s :
  ∃ names, topics s = (Ok names, s) ∧
    StronglySorted String.le names ∧ NoDup names ∧
    ∀ topic, topic ∈ names ↔
      ∃ sub, sub ∈ (_subscriptions s).*1 ∧ Subscription.topic sub = topic.
Proof.
  eexists. split_and!; [done| | |].
  - apply StronglySorted_merge_sort; apply _.
  - apply NoDup_sorted_str, NoDup_remove_dups.
  - intros topic. rewrite elem_of_sorted_str elem_of_remove_dups list_elem_of_fmap.
    split; intros (sub & ? & ?); by exists sub.
Qed.

(** X26.  [subscriptions()] without a pattern returns every subscription of
    the index, in the order of the index, and [has_subscribers()] without a
    pattern tells whether the index holds a subscription. *)
Theorem subscriptions_without_pattern s :
  subscriptions None s = (Ok (_subscriptions s).*1, s) ∧
  has_subscribers None s = (Ok (bool_decide (_subscriptions s ≠ [])), s).
Proof.
  assert (subscriptions None s = (Ok (_subscriptions s).*1, s)) as Hall.
  { rewrite /subscriptions. bus_simpl. do 2 f_equal.
    apply filter_all, Forall_forall. intros sub _.
    apply Is_true_true, WildcardFacts.is_matching_chars_glob, glob_match_star. }
  split; [done|]. rewrite /has_subscribers /mbind /M_bind Hall /mret /M_ret.
  do 2 f_equal. apply bool_decide_ext. rewrite length_fmap.
  destruct (_subscriptions s); simpl; split; try done; lia.
Qed.

(** X27.  [subscriptions(pattern)] matches the pattern against the topics
    of the subscriptions taken as plain strings: for a pattern without
    wildcard characters it returns the subscriptions whose topic is the
    pattern itself, and none of the subscriptions to a wildcard topic that
    a publish on the pattern would reach. *)
Theorem subscriptions_of_literal_pattern s pattern :
  literal pattern → pattern ≠ "" →
  subscriptions (Some pattern) s =
    (Ok (filter (λ sub, Subscription.topic sub = pattern) (_subscriptions s).*1), s).
Proof.
  intros Hlit Hne. rewrite /subscriptions /Condition.valid_string. bus_simpl.
  rewrite bool_decide_eq_false_2 //=. do 2 f_equal.
  apply list_filter_iff. intros sub.
  rewrite Is_true_true /is_matching WildcardFacts.is_matching_chars_glob. split.
  - intros Hm. by apply list_ascii_of_string_inj, glob_match_literal.
  - intros ->. apply glob_match_refl.
Qed.

End Introspection.

(* ===================================================================== *)
(** ** What is fixed when the bus is made *)
(* ===================================================================== *)

Section Configuration.
Context (behaviour : list Event → Handler → Msg → Outcome).

(** X28.  What [__init__] takes from the serializer and the configuration
    holds for the life of the bus: the serializer is the one given, the bus
    has a backing exactly when the configuration names a database, and the
    publishable types are the types of [EXTERNAL_PUBLISHING_TYPES] that are
    not in the types filter, in their order. *)
Theorem configuration_is_fixed EXTERNAL_PUBLISHING_TYPES name serializer config s0 s :
  MessageBus_init EXTERNAL_PUBLISHING_TYPES name serializer config = Ok s0 →
  reachable_from behaviour s0 s →
  let types_filter := default [] (config ≫= MessageBusConfig.types_filter) in
  _serializer s = serializer ∧
  _has_backing s = bool_decide (is_Some (config ≫= MessageBusConfig.database)) ∧
  _publishable_types s `sublist_of` EXTERNAL_PUBLISHING_TYPES ∧
  ∀ cls, cls ∈ _publishable_types s ↔
    cls ∈ EXTERNAL_PUBLISHING_TYPES ∧ cls ∉ types_filter.
Proof.
  intros Hinit (-> & -> & ->)%reachable_from_same_config types_filter.
  revert Hinit. rewrite /MessageBus_init /mbind /Result_bind.
  destruct (Condition.valid_string _); [|done]. intros [= <-]. simpl.
  subst types_filter.
  destruct config as [[database [types_filter|]]|]; simpl; split_and!; try done.
  - apply sublist_filter.
  - intros cls. rewrite list_elem_of_filter. tauto.
  - intros cls. split; [|by intros [? _]]. intros ?. split; [done|].
    apply not_elem_of_nil.
  - intros cls. split; [|by intros [? _]]. intros ?. split; [done|].
    apply not_elem_of_nil.
Qed.

End Configuration.

(* ===================================================================== *)
(** ** The further properties on concrete buses *)
(* ===================================================================== *)


(** Two subscriptions of [h1] to ["T"], the second with another priority. *)
Lemma subscribe_again_keeps_first_witness :
  let s1 := (subscribe (Some "T") (Some Example.h1) 10 Example.bus).2 in
  (subscribe (Some "T") (Some Example.h1) 5 s1).1 = Ok tt ∧
  _subscriptions (subscribe (Some "T") (Some Example.h1) 5 s1).2
    = [(Subscription.mk "T" Example.h1 10, [])].
Proof.
  intros s1.
  destruct (subscribe_again_keeps_first Example.bus "T" Example.h1 10 5)
    as [_ Heq]; [done..|].
  fold s1 in Heq. rewrite Heq. split; [done|]. by vm_compute.
Defined.

(** A subscription of [h1] to ["T"] on a new bus. *)
Lemma subscribe_then_is_subscribed_witness :
  let s1 := (subscribe (Some "T") (Some Example.h1) 0 Example.bus).2 in
  (is_subscribed (Some "T") (Some Example.h1) s1).1 = Ok true ∧
  (has_subscribers (Some "T") s1).1 = Ok true.
Proof.
  intros s1.
  destruct (subscribe_then_is_subscribed Example.bus "T" Example.h1 0)
    as (Hsub & Hhas & _); [done..|].
  by split.
Defined.




(** [subscribe("data.*", h1)] when ["data.trade"] is cached. *)
Lemma subscribe_updates_cached_literal_witness :
  let s := Example.run [call_publish (Some "data.trade") (Some Example.tick)]
             Example.bus in
  let s' := (subscribe (Some "data.*") (Some Example.h1) 0 s).2 in
  literal "data.trade" ∧
  _patterns s' !! "data.trade" = Some [] ∧
  resolved "data.trade" s' = resolved "data.trade" s.
Proof.
  intros s s'.
  assert (literal "data.trade") as Hlit by no_wildcard.
  destruct (subscribe_updates_cached_literal s "data.*" Example.h1 0
              "data.trade" [])
    as [Hcached Hsame]; [done|done|reflexivity|done|by vm_compute|].
  split_and!; [done|done|]. by apply Hsame.
Defined.

(** [h1], [h2] and [h3] subscribed to ["T"] with falling priorities, [h2]
    raising. *)
Lemma publish_stops_at_first_raise_witness :
  let s := Example.run [call_subscribe (Some "T") (Some Example.h1) 10;
                        call_subscribe (Some "T") (Some Example.h2) 5;
                        call_subscribe (Some "T") (Some Example.h3) 0]
             Example.bus in
  let s' := (publish Example.h2_raising (Some "T") (Some Example.tick) s).2 in
  (publish Example.h2_raising (Some "T") (Some Example.tick) s).1
    = Raise (HandlerRaised Example.h2) ∧
  ∃ i, trace s' = trace s ++ dispatch_of Example.tick (take (S i) (resolved "T" s)) ∧
       pub_count s' = pub_count s.
Proof.
  intros s s'.
  assert ((publish Example.h2_raising (Some "T") (Some Example.tick) s).1
          = Raise (HandlerRaised Example.h2)) as Hraise by (by vm_compute).
  split; [done|].
  pose proof (publish_stops_at_first_raise Example.h2_raising s "T" Example.tick)
    as Hpublish.
  cbn zeta in Hpublish. rewrite Hraise in Hpublish.
  destruct Hpublish as (i & sub & _ & _ & _ & _ & Htrace & Hpub).
  by exists i.
Defined.


(** A bus made with a serializer and no database. *)
Lemma no_sink_never_emits_witness :
  let s0 := mkMessageBus ∅ ∅ [] ∅ false (Some Example.serializer)
              ["TypeA"; "TypeB"] 0 0 0 0 [] in
  let s := after Example.returning
             (call_publish (Some "data") (Some (Object "TypeB" [] 2))) s0 in
  emissions (trace s) = [].
Proof.
  intros s0 s.
  apply (no_sink_never_emits Example.returning ["TypeA"; "TypeB"] None
           (Some Example.serializer) None s0 s).
  - reflexivity.
  - by right.
  - apply reachable_after, reachable_refl.
Defined.


(** The pattern ["T"] on a bus with subscribers to ["T"] and ["*"]. *)
Lemma subscriptions_of_literal_pattern_witness :
  let s := Example.run [call_subscribe (Some "T") (Some Example.h1) 0;
                        call_subscribe (Some "*") (Some Example.h2) 0]
             Example.bus in
  literal "T" ∧
  (subscriptions (Some "T") s).1 = Ok [Subscription.mk "T" Example.h1 0].
Proof.
  intros s.
  assert (literal "T") as Hlit by no_wildcard.
  split; [done|].
  pose proof (subscriptions_of_literal_pattern s "T" Hlit) as Heq.
  by rewrite Heq.
Defined.

(** The bus made with a serializer, a database and the filter [[TypeA]],
    after a subscribe. *)
Lemma configuration_is_fixed_witness :
  let s := Example.run [call_subscribe (Some "data") (Some Example.h1) 0]
             Example.configured in
  _has_backing s = true ∧ _publishable_types s `sublist_of` ["TypeA"; "TypeB"].
Proof.
  intros s.
  destruct (configuration_is_fixed Example.returning ["TypeA"; "TypeB"] None
              (Some Example.serializer)
              (Some (MessageBusConfig.mk (Some "redis") (Some ["TypeA"])))
              Example.configured s Example_configured_init)
    as (_ & Hbacking & Hsub & _); [apply reachable_after, reachable_refl|].
  by split.
Defined.

(* ===================================================================== *)
(** ** Delivery to a subscription made before the first publish *)
(* ===================================================================== *)

Section Delivery.
Context (behaviour : list Event → Handler → Msg → Outcome).
Import Wildcard.

(** [subscribe] caches no topic that was not cached. *)
Lemma subscribe_uncached t h priority s topic :
  t ≠ "" → (0 ≤ priority)%Z → _patterns s !! topic = None →
  _patterns (subscribe (Some t) (Some h) priority s).2 !! topic = None.
Proof.
  intros Ht Hp Hnone.
  destruct (dict_get (Subscription.mk t h 0) (_subscriptions s)) as [v|] eqn:Hget.
  - by rewrite subscribe_present // Hget.
  - destruct (subscribe_new t h priority s) as (cache' & -> & Hcache'); [done..|].
    rewrite /= Hcache' Hnone. by case_decide.
Qed.

(** X29.  When a topic has not been published yet, a subscription made with
    a pattern that matches it is among those the first publish on the topic
    dispatches to: after [subscribe(pattern, handler)], a [publish] on the
    topic that returns has called the handler with the message. *)
Theorem subscribe_before_first_publish_delivers
    s pattern handler priority topic msg :
  pattern ≠ "" → (0 ≤ priority)%Z →
  _patterns s !! topic = None →
  is_matching topic pattern = true →
  let s1 := (subscribe (Some pattern) (Some handler) priority s).2 in
  let s2 := (publish behaviour (Some topic) (Some msg) s1).2 in
  (∃ sub, sub ∈ resolved topic s1 ∧ Subscription.key sub = (pattern, handler)) ∧
  ∃ new_calls,
    calls (trace s2) = calls (trace s1) ++ new_calls ∧
    ((publish behaviour (Some topic) (Some msg) s1).1 = Ok tt →
     (handler, msg) ∈ new_calls).
Proof.
  intros Ht Hp Hnone Hm s1 s2.
  destruct (subscribe_indexed pattern handler priority s) as [_ Hin]; [done..|].
  fold s1 in Hin. destruct (elem_of_index_key _ _ Hin) as (k & Hk & Hkey).
  pose proof (subscribe_uncached pattern handler priority s topic Ht Hp Hnone)
    as Hnone1.
  fold s1 in Hnone1.
  assert (k ∈ resolved topic s1) as Hresolved.
  { rewrite /resolved Hnone1 elem_of_sorted_reverse list_elem_of_filter.
    split; [|done]. injection Hkey as -> _. by rewrite Hm. }
  split; [by exists k|].
  destruct (publish_calls behaviour topic msg s1) as (n & _ & Hcalls & Hall).
  eexists. split; [done|]. intros Hok. rewrite Hall // take_ge //.
  apply list_elem_of_fmap. exists k. split; [|done].
  by injection Hkey as _ ->.
Qed.

End Delivery.

(** [h1] subscribed to ["data.*"] before the first publish on
    ["data.trade"]. *)
Lemma subscribe_before_first_publish_delivers_witness :
  let s1 := (subscribe (Some "data.*") (Some Example.h1) 0 Example.bus).2 in
  let s2 := (publish Example.returning (Some "data.trade") (Some Example.tick) s1).2 in
  ∃ new_calls,
    calls (trace s2) = calls (trace s1) ++ new_calls ∧
    (Example.h1, Example.tick) ∈ new_calls.
Proof.
  intros s1 s2.
  destruct (subscribe_before_first_publish_delivers Example.returning Example.bus
              "data.*" Example.h1 0 "data.trade" Example.tick)
    as (_ & new_calls & Hcalls & Hin); [done|done|reflexivity|reflexivity|].
  exists new_calls. split; [done|]. by apply Hin.
Defined.
